(** * OSM Med Spa Seeder: a shallow embedding of [main.js] and its properties

    The actor queries the Overpass API for spa-like places inside a bounding
    box, turns every named element into a flat row, removes duplicates and
    stores the rows together with a run summary.

    Conventions of the embedding.
    - A JavaScript string is a [string]; every character stands for one code
      unit in the range U+0000..U+00FF (the Latin-1 part of UTF-16), on which
      [trim] and [toLowerCase] are written out in full.
    - A JavaScript number is a [JsNumber]: NaN, the two infinities, or a
      finite value kept as an exact rational.
    - Built-ins that the program only calls and whose algorithms belong to
      the engine (number parsing and printing, the URL parser, stack traces)
      are the fields of the class [Engine]; every property is proved for an
      arbitrary engine, and [refEngine] is used to evaluate examples.
    - Awaited platform calls are threaded through the state monad [M], whose
      state records the ordered trace of effects. *)

From Stdlib Require Import ZArith QArith Qabs Qround String Ascii List Bool Lia.
From stdpp Require Import base option list strings pretty gmap.

Open Scope string_scope.
Open Scope list_scope.

(** ** JavaScript strings *)

Module Js.

Definition code (c : ascii) : N := N_of_ascii c.

(** WhiteSpace and LineTerminator code units below U+0100:
    TAB, LF, VT, FF, CR, SP and NBSP. *)
Definition isWhiteSpace (c : ascii) : bool :=
  let n := code c in
  (((9 <=? n) && (n <=? 13)) || (n =? 32) || (n =? 160))%N.

Fixpoint trimStart (s : string) : string :=
  match s with
  | EmptyString => EmptyString
  | String c s' => if isWhiteSpace c then trimStart s' else s
  end.

Fixpoint trimEnd (s : string) : string :=
  match s with
  | EmptyString => EmptyString
  | String c s' =>
      match trimEnd s' with
      | EmptyString => if isWhiteSpace c then EmptyString else String c EmptyString
      | t => String c t
      end
  end.

(** [String.prototype.trim] *)
Definition trim (s : string) : string := trimEnd (trimStart s).

(** Default case conversion of one Latin-1 code unit: A-Z, and U+00C0..U+00DE
    except the multiplication sign U+00D7, move up by 32. *)
Definition lowerChar (c : ascii) : ascii :=
  let n := code c in
  if (((65 <=? n) && (n <=? 90)) || ((192 <=? n) && (n <=? 222) && negb (n =? 215)))%N
  then ascii_of_N (n + 32) else c.

(** [String.prototype.toLowerCase] *)
Fixpoint toLowerCase (s : string) : string :=
  match s with
  | EmptyString => EmptyString
  | String c s' => String (lowerChar c) (toLowerCase s')
  end.

(** [s.startsWith(p)] *)
Fixpoint startsWith (s p : string) {struct p} : bool :=
  match p, s with
  | EmptyString, _ => true
  | String _ _, EmptyString => false
  | String a p', String b s' => Ascii.eqb a b && startsWith s' p'
  end.

(** [s.includes(k)] *)
Fixpoint includes (s k : string) : bool :=
  startsWith s k ||
  match s with
  | EmptyString => false
  | String _ s' => includes s' k
  end.

(** [s.slice(n)] for a non-negative [n] *)
Fixpoint slice (n : nat) (s : string) : string :=
  match n, s with
  | O, _ => s
  | S _, EmptyString => EmptyString
  | S n', String _ s' => slice n' s'
  end.

(** [xs.join(sep)] *)
Fixpoint join (sep : string) (xs : list string) : string :=
  match xs with
  | [] => EmptyString
  | [x] => x
  | x :: xs' => x +:+ sep +:+ join sep xs'
  end.

(** [s.split(sep)] for a one-character separator: [cur] is the piece being
    read. *)
Fixpoint splitGo (sep : ascii) (cur : string) (s : string) : list string :=
  match s with
  | EmptyString => [cur]
  | String c s' =>
      if Ascii.eqb c sep then cur :: splitGo sep EmptyString s'
      else splitGo sep (cur +:+ String c EmptyString) s'
  end.

Definition split (sep : ascii) (s : string) : list string :=
  splitGo sep EmptyString s.

(** Truthiness of a string: [Boolean(s)] is false only for the empty one. *)
Definition truthy (s : string) : bool :=
  match s with EmptyString => false | String _ _ => true end.

(** [a || b] on strings *)
Definition or (a b : string) : string := if truthy a then a else b.

End Js.

(** ** Query Builder: [buildRegex] *)

(** The character class of the replace call: . * + ? ^ $ { } ( ) | [ ] \ *)
Definition metaChars : list ascii :=
  ["."; "*"; "+"; "?"; "^"; "$"; "{"; "}"; "("; ")"; "|"; "["; "]"; "\"]%char.

Definition isMeta (c : ascii) : bool := existsb (Ascii.eqb c) metaChars.

(** [k.replace(/[.*+?^${}()|[\]\\]/g, '\\$&')] *)
Fixpoint escapeRegex (k : string) : string :=
  match k with
  | EmptyString => EmptyString
  | String c k' =>
      if isMeta c then String "\" (String c (escapeRegex k'))
      else String c (escapeRegex k')
  end.

Definition defaultPattern : string :=
  "med\s*spa|medspa|aesthetic|inject|botox|laser|hydrafacial".

(** [keywords.map(k => String(k).trim()).filter(Boolean)] *)
Definition cleanKeywords (keywords : list string) : list string :=
  List.filter Js.truthy (map Js.trim keywords).

Definition buildRegex (keywords : list string) : string :=
  let safe := map escapeRegex (cleanKeywords keywords) in
  let joined :=
    match safe with
    | [] => defaultPattern
    | _ :: _ => Js.join "|" safe
    end in
  "(?i)(" +:+ joined +:+ ")".

(** *** Reading a pattern back

    The pattern is never run by the program.  To state what it denotes, the
    reader below follows regular-expression syntax on the fragment the
    builder emits: a backslash followed by a metacharacter is that literal
    character, a bare metacharacter is an operator, a backslash followed by
    anything else is a class or control escape. *)

Inductive token : Type :=
  | Lit (c : ascii)
  | Op (c : ascii)
  | Esc (c : ascii).

Fixpoint tokenize (escaped : bool) (s : string) : option (list token) :=
  match s with
  | EmptyString => if escaped then None else Some []
  | String c s' =>
      if escaped
      then cons (if isMeta c then Lit c else Esc c) <$> tokenize false s'
      else if Ascii.eqb c "\" then tokenize true s'
      else cons (if isMeta c then Op c else Lit c) <$> tokenize false s'
  end.

Definition pushChar (c : ascii) (alts : list string) : option (list string) :=
  match alts with
  | [] => None
  | a :: rest => Some (String c a :: rest)
  end.

(** The alternatives of a group body up to its closing parenthesis, when all
    of them are plain literal text. *)
Fixpoint literalAlternatives (ts : list token) : option (list string) :=
  match ts with
  | [] => None
  | Lit c :: ts' => literalAlternatives ts' ≫= pushChar c
  | Op c :: ts' =>
      if Ascii.eqb c ")" then
        match ts' with [] => Some [EmptyString] | _ :: _ => None end
      else if Ascii.eqb c "|" then cons EmptyString <$> literalAlternatives ts'
      else None
  | Esc _ :: _ => None
  end.

Fixpoint stripPrefix (p s : string) : option string :=
  match p, s with
  | EmptyString, _ => Some s
  | String _ _, EmptyString => None
  | String a p', String b s' => if Ascii.eqb a b then stripPrefix p' s' else None
  end.

(** The literal texts a pattern of the shape [(?i)(a|b|...)] stands for. *)
Definition decodePattern (p : string) : option (list string) :=
  body ← stripPrefix "(?i)(" p;
  ts ← tokenize false body;
  literalAlternatives ts.

(** Case-insensitive search of [text] for one of the literal alternatives. *)
Definition patternFinds (p text : string) : bool :=
  match decodePattern p with
  | Some alts =>
      existsb (fun a => Js.includes (Js.toLowerCase text) (Js.toLowerCase a)) alts
  | None => false
  end.


(** ** JavaScript numbers and primitive values *)

Inductive JsNumber : Type :=
  | NaN
  | PosInf
  | NegInf
  | Fin (q : Q).

(** [Number.isFinite(n)] *)
Definition isFinite (n : JsNumber) : bool :=
  match n with Fin _ => true | _ => false end.

(** [a <= b] on numbers; every comparison with NaN is false. *)
Definition leNum (a b : JsNumber) : bool :=
  match a, b with
  | NaN, _ | _, NaN => false
  | NegInf, _ => true
  | _, PosInf => true
  | PosInf, _ => false
  | _, NegInf => false
  | Fin x, Fin y => Qle_bool x y
  end.

(** The values a JSON field read by the program may hold ([VUndefined] when
    the property is missing). *)
Inductive JsVal : Type :=
  | VUndefined
  | VNull
  | VBool (b : bool)
  | VNum (n : JsNumber)
  | VStr (s : string).

Record JsError : Type := mkJsError { message : string; stack : string }.

(** The outcome of a call: a value, or a thrown error. *)
Inductive Completion (A : Type) : Type :=
  | Normal (a : A)
  | Throw (e : JsError).
Arguments Normal {A} a.
Arguments Throw {A} e.

(** Built-ins left to the engine. *)
Class Engine : Type := {
  (** [Number(s)] on a string *)
  StringToNumber : string → JsNumber;
  (** [String(n)] on a number *)
  NumberToString : JsNumber → string;
  (** [new URL(s).hostname], or [None] when the constructor throws *)
  URLHostname : string → option string;
  (** the stack trace captured by [new Error(msg)] *)
  errorStack : string → string;
}.

(** The double-precision values of the literals used by the program. *)
Definition num_0_5 : JsNumber := Fin (1 # 2).
Definition num_0_7 : JsNumber := Fin (3152519739159347 # 4503599627370496).
Definition num_1_0 : JsNumber := Fin 1.
Definition num_29_10 : JsNumber := Fin (4095460911140045 # 140737488355328).
Definition num_m98_85 : JsNumber := Fin (-3477975180981043 # 35184372088832).
Definition num_29_75 : JsNumber := Fin (119 # 4).
Definition num_m98_10 : JsNumber := Fin (-3451586901914419 # 35184372088832).

Fixpoint zeros (n : nat) : string :=
  match n with O => EmptyString | S n' => String "0" (zeros n') end.

(** The first [n] characters of [s]. *)
Fixpoint take_str (n : nat) (s : string) : string :=
  match n, s with
  | S n', String c s' => String c (take_str n' s')
  | _, _ => EmptyString
  end.

(** The tag mapping of an element. *)
Abbreviation Tags := (gmap string string).

Section WithEngine.
Context {engine : Engine}.

(** [new Error(msg)] *)
Definition newError (msg : string) : JsError :=
  {| message := msg; stack := errorStack msg |}.

(** [Number(v)] *)
Definition ToNumber (v : JsVal) : JsNumber :=
  match v with
  | VUndefined => NaN
  | VNull => Fin 0
  | VBool true => Fin 1
  | VBool false => Fin 0
  | VNum n => n
  | VStr s => StringToNumber s
  end.

(** [String(v)], as done by a template literal *)
Definition ToString (v : JsVal) : string :=
  match v with
  | VUndefined => "undefined"
  | VNull => "null"
  | VBool true => "true"
  | VBool false => "false"
  | VNum n => NumberToString n
  | VStr s => s
  end.

(** [x.toFixed(f)] (ECMA-262, Number.prototype.toFixed): values that are not
    finite or not below 10^21 print as [String(x)]; otherwise the nearest
    integer to [x * 10^f] (the larger one on a tie) is printed with a decimal
    point before its last [f] digits. *)
Definition toFixed (x : JsNumber) (f : nat) : string :=
  match x with
  | Fin q =>
      if Qle_bool (inject_Z (10 ^ 21)) (Qabs.Qabs q) then NumberToString x
      else
        let sign := if Qle_bool 0 q then EmptyString else "-" in
        let n := Qround.Qfloor (Qabs.Qabs q * inject_Z (10 ^ Z.of_nat f) + (1 # 2)) in
        let m := pretty (Z.to_N n) in
        let m := if (String.length m <=? f)%nat
                 then zeros (f + 1 - String.length m) +:+ m else m in
        let k := String.length m in
        match f with
        | O => sign +:+ m
        | S _ => sign +:+ take_str (k - f) m +:+ "." +:+ Js.slice (k - f) m
        end
  | _ => NumberToString x
  end.

(** ** Record Extractor helpers *)

Record Row : Type := mkRow {
  name : string;
  domain : string;
  city : string;
  category : string;
  source_url : string;
  lat : string;
  lon : string;
  confidence : string;
  notes : string;
}.

(** [tags[k]] in a position where a missing tag and the empty string behave
    alike (operand of [||] or of [=== 'literal']). *)
Definition tag (tags : Tags) (k : string) : string := default EmptyString (tags !! k).

Definition rootDomain (url : string) : string :=
  if negb (Js.truthy url) then EmptyString
  else
    match URLHostname (if Js.startsWith url "http" then url else "http://" +:+ url) with
    | Some hostname =>
        let h := Js.toLowerCase hostname in
        if Js.startsWith h "www." then Js.slice 4 h else h
    | None => EmptyString
    end.

Definition categoryFromTags (tags : Tags) : string :=
  if String.eqb (tag tags "leisure") "spa" then "spa"
  else if String.eqb (tag tags "amenity") "clinic" then "clinic"
  else if String.eqb (tag tags "shop") "beauty" then "beauty"
  else Js.or (tag tags "amenity") (Js.or (tag tags "leisure") (Js.or (tag tags "shop") EmptyString)).

Definition cityFromTags (tags : Tags) (fallbackCity : string) : string :=
  Js.or (tag tags "addr:city")
    (Js.or (tag tags "is_in:city")
       (Js.or (tag tags "addr:town")
          (Js.or (tag tags "addr:village") fallbackCity))).

Definition keywordHits (tags : Tags) (keywords : list string) : list string :=
  let n := Js.toLowerCase (Js.or (tag tags "name") EmptyString) in
  List.filter (fun k => Js.includes n k)
    (map Js.toLowerCase (List.filter Js.truthy keywords)).

Definition evidenceNote (tags : Tags) (keywords : list string) : string :=
  let hits := keywordHits tags keywords in
  match hits with
  | [] => EmptyString
  | _ :: _ => "name_keywords=" +:+ Js.join "," hits
  end.

(** ** Deduplicator *)

Definition dedupKey (r : Row) : string :=
  Js.or (domain r)
    (Js.toLowerCase (Js.or (name r) EmptyString) +:+ "|" +:+
     Js.toLowerCase (Js.or (city r) EmptyString)).

(** One turn of the [for (const r of rows)] loop on the pair [(seen, out)]. *)
Definition dedupeStep (st : gset string * list Row) (r : Row) : gset string * list Row :=
  let key := dedupKey r in
  if decide (key ∈ st.1) then st
  else ({[key]} ∪ st.1, st.2 ++ [r]).

Definition dedupeRows (rows : list Row) : list Row :=
  (foldl dedupeStep (∅, []) rows).2.

(** ** Raw elements and their rows *)

Record Center : Type := mkCenter {
  c_lat : option JsNumber;
  c_lon : option JsNumber;
}.

(** An element of the response: [None] stands for a missing (or null)
    property; [el_type] is [None] as well when the property is not a
    string. *)
Record Element : Type := mkElement {
  el_type : option string;
  el_id : JsVal;
  el_lat : option JsNumber;
  el_lon : option JsNumber;
  el_center : option Center;
  el_tags : option Tags;
}.

(** [a ?? b] *)
Definition nullish {A} (a b : option A) : option A :=
  match a with Some _ => a | None => b end.

(** [typeof x === 'number' ? x.toFixed(6) : ''] *)
Definition coordinate (x : option JsNumber) : string :=
  match x with Some n => toFixed n 6 | None => EmptyString end.

(** The callback of [elements.map]: [None] is the [null] it returns for an
    unnamed element. *)
Definition extractRow (keywords : list string) (fallbackCity : string)
    (el : Element) : option Row :=
  let tags := default ∅ (el_tags el) in
  let name := Js.trim (Js.or (tag tags "name") EmptyString) in
  if negb (Js.truthy name) then None
  else
    let website := Js.or (tag tags "website") (Js.or (tag tags "contact:website") EmptyString) in
    let domain := rootDomain website in
    let lat := nullish (el_lat el) (nullish (el_center el ≫= c_lat) None) in
    let lon := nullish (el_lon el) (nullish (el_center el ≫= c_lon) None) in
    let category := categoryFromTags tags in
    let cityPicked := cityFromTags tags fallbackCity in
    let note := evidenceNote tags keywords in
    let confidence :=
      if Js.truthy domain then num_1_0
      else if Js.truthy note then num_0_7 else num_0_5 in
    let osmType :=
      match el_type el with
      | Some t => if String.eqb t "node" then "node" else "way"
      | None => "way"
      end in
    let sourceUrl := "https://www.openstreetmap.org/" +:+ osmType +:+ "/" +:+ ToString (el_id el) in
    Some {|
      name := name;
      domain := domain;
      city := cityPicked;
      category := category;
      source_url := sourceUrl;
      lat := coordinate lat;
      lon := coordinate lon;
      confidence := toFixed confidence 2;
      notes := note;
    |}.

(** [elements.map(...).filter(Boolean)] *)
Definition extractRows (keywords : list string) (fallbackCity : string)
    (elements : list Element) : list Row :=
  omap (extractRow keywords fallbackCity) elements.


(** ** Input Normalizer *)

Record BBox : Type := mkBBox {
  south : JsVal;
  west : JsVal;
  north : JsVal;
  east : JsVal;
}.

(** The input object as the program reads it.  [in_bbox] is [Some b] when
    [input.bbox] is truthy, [b] holding its four properties; [in_keywords] is
    [Some l] when [input.keywords] is an array; [in_keyword_list] is [Some s]
    when [input.keyword_list] is a string; [in_city] is [None] when
    [input.city] is missing. *)
Record Input : Type := mkInput {
  in_bbox : option BBox;
  in_bbox_south : JsVal;
  in_bbox_west : JsVal;
  in_bbox_north : JsVal;
  in_bbox_east : JsVal;
  in_keywords : option (list string);
  in_keyword_list : option string;
  in_city : option string;
}.

(** [{}] *)
Definition emptyInput : Input :=
  {| in_bbox := None;
     in_bbox_south := VUndefined; in_bbox_west := VUndefined;
     in_bbox_north := VUndefined; in_bbox_east := VUndefined;
     in_keywords := None; in_keyword_list := None; in_city := None |}.

Record Config : Type := mkConfig {
  cfg_bbox : BBox;
  cfg_keywords : list string;
  cfg_city : string;
}.

Definition toNum (v : JsVal) (def : JsNumber) : JsNumber :=
  let n := ToNumber v in
  if isFinite n then n else def.

Definition defaultKws : list string :=
  ["med spa"; "medspa"; "aesthetic"; "inject"; "botox"; "laser"; "hydrafacial"].

(** [lo <= v && v <= hi] with number literals [lo] and [hi]: the other
    operand is converted with [Number]. *)
Definition within (lo hi : Z) (v : JsVal) : bool :=
  leNum (Fin (inject_Z lo)) (ToNumber v) && leNum (ToNumber v) (Fin (inject_Z hi)).

Definition bboxOk (b : BBox) : bool :=
  within (-90) 90 (south b) && within (-90) 90 (north b) &&
  within (-180) 180 (west b) && within (-180) 180 (east b).

Definition resolveBBox (input : Input) : BBox :=
  match in_bbox input with
  | Some b => b
  | None =>
      {| south := VNum (toNum (in_bbox_south input) num_29_10);
         west := VNum (toNum (in_bbox_west input) num_m98_85);
         north := VNum (toNum (in_bbox_north input) num_29_75);
         east := VNum (toNum (in_bbox_east input) num_m98_10) |}
  end.

Definition resolveKeywords (input : Input) : list string :=
  match in_keywords input with
  | Some (k :: ks) => k :: ks
  | _ =>
      match in_keyword_list input with
      | Some s => List.filter Js.truthy (map Js.trim (Js.split "," s))
      | None => defaultKws
      end
  end.

Definition resolveCity (input : Input) : string :=
  Js.or (default EmptyString (in_city input)) "San Antonio".

Definition normalizeInput (input : Input) : Completion Config :=
  let bbox := resolveBBox input in
  let keywords := resolveKeywords input in
  let city := resolveCity input in
  if negb (bboxOk bbox) then Throw (newError "Invalid bbox coordinates")
  else Normal {| cfg_bbox := bbox; cfg_keywords := keywords; cfg_city := city |}.

End WithEngine.

(** ** Effects

    The platform is an external collaborator: it hands over the input,
    answers each [fetch] call, and accepts log lines, dataset rows and
    key-value records.  The trace lists these effects in the order the
    program performs them. *)

(** The parsed body of a response, as far as the program looks at it:
    [JsonElements els] when its [elements] property is an array. *)
Inductive Json : Type :=
  | JsonElements (els : list Element)
  | JsonOther.

Record Response : Type := mkResponse {
  res_ok : bool;
  res_status : N;
  (** [res.headers.get('content-type')] *)
  res_contentType : option string;
  (** [await res.json()] *)
  res_json : Completion Json;
}.

Inductive FetchOutcome : Type :=
  | FetchRejects (e : JsError)
  | FetchResolves (r : Response).

Record World : Type := mkWorld {
  (** [await Actor.getInput()], [None] for [null] *)
  w_input : option Input;
  (** the outcome of the [n]-th [fetch] call (counted from 0), given the
      address and the query it posts *)
  w_fetch : nat → string → string → FetchOutcome;
}.

Record Summary : Type := mkSummary {
  found : nat;
  deduped : nat;
  sum_bbox : BBox;
  sum_keywords : list string;
  sum_city : string;
  hint : string;
}.

Inductive StoreValue : Type :=
  | SummaryValue (s : Summary)
  | ErrorValue (msg : string) (stk : string).

Inductive LogLine : Type :=
  (** [log.info(`Overpass → ${ep} (attempt ${attempt})`)] *)
  | LogAttempt (ep : string) (attempt : nat)
  (** [log.warning(`Overpass failed (${ep}) attempt ${attempt}: ${e.message}`)] *)
  | LogFailed (ep : string) (attempt : nat) (msg : string)
  (** [log.error(`Fatal error: ${err.message}`)] *)
  | LogFatal (msg : string).

Inductive Event : Type :=
  | EvLog (l : LogLine)
  (** a POST of the form field [data] to an endpoint, with its headers *)
  | EvFetch (ep : string) (headers : list (string * string)) (data : string)
  | EvSleep (ms : nat)
  | EvPushData (rows : list Row)
  | EvSetValue (key : string) (v : StoreValue).

Record St : Type := mkSt {
  st_calls : nat;
  st_trace : list Event;
}.

Definition initSt : St := {| st_calls := 0; st_trace := [] |}.

(** Computations that read and extend the state and may throw. *)
Definition M (A : Type) : Type := St → Completion A * St.

Definition ret {A} (a : A) : M A := fun s => (Normal a, s).

Definition throw {A} (e : JsError) : M A := fun s => (Throw e, s).

Definition bind {A B} (m : M A) (k : A → M B) : M B :=
  fun s =>
    match m s with
    | (Normal a, s') => k a s'
    | (Throw e, s') => (Throw e, s')
    end.

(** [try { m } catch (e) { ... }]: the completion of [m] becomes a value. *)
Definition try {A} (m : M A) : M (Completion A) :=
  fun s => let '(c, s') := m s in (Normal c, s').

Definition lift {A} (c : Completion A) : M A := fun s => (c, s).

Definition emit (ev : Event) : M unit :=
  fun s => (Normal tt, {| st_calls := st_calls s; st_trace := st_trace s ++ [ev] |}).

Notation "x <~ m ;; k" := (bind m (fun x => k))
  (at level 100, m at next level, right associativity).
Notation "m ;;; k" := (bind m (fun _ => k))
  (at level 100, right associativity).

Definition OVERPASS_ENDPOINTS : list string :=
  ["https://overpass-api.de/api/interpreter";
   "https://overpass.kumi.systems/api/interpreter";
   "https://overpass.openstreetmap.ru/api/interpreter"].

Definition UA : string := "osm-medspa-seeder/1.0 (+contact@example.org)".

Definition requestHeaders : list (string * string) :=
  [("Content-Type", "application/x-www-form-urlencoded");
   ("Accept", "application/json");
   ("User-Agent", UA)].

Definition nl : string := String (ascii_of_nat 10) EmptyString.
Definition dq : string := String (ascii_of_nat 34) EmptyString.

Fixpoint spaces (n : nat) : string :=
  match n with O => EmptyString | S n' => String " " (spaces n') end.

Section Pipeline.
Context {engine : Engine}.
Variable world : World.

(** One clause of the query:
    [kind["key"="val"]["name"~"regex"](south,west,north,east);] *)
Definition clause (kind key val nameRegex : string) (b : BBox) : string :=
  kind +:+ "[" +:+ dq +:+ key +:+ dq +:+ "=" +:+ dq +:+ val +:+ dq +:+ "]["
    +:+ dq +:+ "name" +:+ dq +:+ "~" +:+ dq +:+ nameRegex +:+ dq +:+ "]("
    +:+ ToString (south b) +:+ "," +:+ ToString (west b) +:+ ","
    +:+ ToString (north b) +:+ "," +:+ ToString (east b) +:+ ");".

(** The template literal [ql], whose lines are indented by [i] and [i + 2]
    columns and whose last line by [i - 2]. *)
Definition overpassQL (i : nat) (nameRegex : string) (b : BBox) : string :=
  let line (n : nat) (s : string) := spaces n +:+ s +:+ nl in
  nl
  +:+ line i "[out:json][timeout:120];"
  +:+ line i "("
  +:+ line (i + 2) (clause "node" "leisure" "spa" nameRegex b)
  +:+ line (i + 2) (clause "way " "leisure" "spa" nameRegex b)
  +:+ line (i + 2) (clause "node" "shop" "beauty" nameRegex b)
  +:+ line (i + 2) (clause "way " "shop" "beauty" nameRegex b)
  +:+ line (i + 2) (clause "node" "amenity" "clinic" nameRegex b)
  +:+ line (i + 2) (clause "way " "amenity" "clinic" nameRegex b)
  +:+ line i ");"
  +:+ line i "out center tags;"
  +:+ spaces (i - 2).

(** [await fetch(ep, { method: 'POST', headers, body })] *)
Definition doFetch (ep : string) (headers : list (string * string)) (ql : string) : M Response :=
  fun s =>
    let s' := {| st_calls := S (st_calls s);
                 st_trace := st_trace s ++ [EvFetch ep headers ql] |} in
    match w_fetch world (st_calls s) ep ql with
    | FetchRejects e => (Throw e, s')
    | FetchResolves r => (Normal r, s')
    end.

(** The body of the [try] block of one delivery attempt. *)
Definition attemptOnce (ep : string) (attempt : nat) (ql : string) : M Json :=
  emit (EvLog (LogAttempt ep attempt)) ;;;
  res <~ doFetch ep requestHeaders ql ;;
  let ct := Js.or (default EmptyString (res_contentType res)) EmptyString in
  if negb (res_ok res) then throw (newError ("HTTP " +:+ pretty (res_status res)))
  else if negb (Js.includes ct "application/json")
  then throw (newError ("Unexpected content-type: " +:+ ct))
  else lift (res_json res).

(** The inner [for] loop over the attempt numbers still to run.  It ends
    with [inl json] when an attempt returns, and with [inr lastErr] when the
    loop runs to its end. *)
Fixpoint attemptLoop (ep ql : string) (attempts : list nat) (lastErr : option JsError)
    : M (Json + option JsError) :=
  match attempts with
  | [] => ret (inr lastErr)
  | attempt :: rest =>
      c <~ try (attemptOnce ep attempt ql) ;;
      match c with
      | Normal json => ret (inl json)
      | Throw e =>
          emit (EvLog (LogFailed ep attempt (message e))) ;;;
          emit (EvSleep (700 * attempt)) ;;;
          attemptLoop ep ql rest (Some e)
      end
  end.

(** The outer [for] loop over the endpoints. *)
Fixpoint endpointLoop (ql : string) (eps : list string) (lastErr : option JsError)
    : M (Json + option JsError) :=
  match eps with
  | [] => ret (inr lastErr)
  | ep :: rest =>
      r <~ attemptLoop ep ql [1; 2; 3] lastErr ;;
      match r with
      | inl json => ret (inl json)
      | inr lastErr' => endpointLoop ql rest lastErr'
      end
  end.

Definition queryOverpass (ql : string) : M Json :=
  r <~ endpointLoop ql OVERPASS_ENDPOINTS None ;;
  match r with
  | inl json => ret json
  | inr lastErr => throw (default (newError "All Overpass endpoints failed") lastErr)
  end.

(** [Array.isArray(json?.elements) ? json.elements : []] *)
Definition elementsOf (json : Json) : list Element :=
  match json with JsonElements els => els | JsonOther => [] end.

Definition hintText : string := "Open the Dataset tab to export CSV.".

(** The [try] block of [Actor.main]. *)
Definition pipeline : M unit :=
  let input := default emptyInput (w_input world) in
  cfg <~ lift (normalizeInput input) ;;
  let nameRegex := buildRegex (cfg_keywords cfg) in
  let ql := overpassQL 6 nameRegex (cfg_bbox cfg) in
  json <~ queryOverpass ql ;;
  let elements := elementsOf json in
  let rows := extractRows (cfg_keywords cfg) (cfg_city cfg) elements in
  let deduped := dedupeRows rows in
  emit (EvPushData deduped) ;;;
  emit (EvSetValue "RUN-SUMMARY" (SummaryValue
    {| found := length rows; deduped := length deduped;
       sum_bbox := cfg_bbox cfg; sum_keywords := cfg_keywords cfg;
       sum_city := cfg_city cfg; hint := hintText |})).

(** [Actor.main]: the pipeline, and the [catch] block that records the error
    without throwing it again. *)
Definition main : M unit :=
  c <~ try pipeline ;;
  match c with
  | Normal _ => ret tt
  | Throw err =>
      emit (EvLog (LogFatal (message err))) ;;;
      emit (EvSetValue "ERROR" (ErrorValue (message err) (stack err)))
  end.

(** A whole run: how [main] completes, and the trace it leaves. *)
Definition run : Completion unit * list Event :=
  let '(c, s) := main initSt in (c, st_trace s).

End Pipeline.

(** ** A reference engine

    Executable versions of the built-ins, used to evaluate the program on
    concrete inputs.  Numbers follow ECMA-262 (StringToNumber and
    Number::toString) on exact rationals.  [URLHostname] follows the WHATWG
    URL parser on its ASCII fragment: a special scheme other than [file],
    optional credentials and port, and a host made of ASCII characters that
    is neither percent-encoded, nor an IP address, nor punycode; an input
    outside this fragment is answered with [None]. *)

Module Ref.

(** The binary64 value nearest to a rational, ties to even. *)
Definition roundDouble (q : Q) : JsNumber :=
  let n := Z.abs (Qnum q) in
  let d := Z.pos (Qden q) in
  if (n =? 0)%Z then Fin 0
  else
    let e0 := (Z.log2 n - Z.log2 d)%Z in
    let reaches :=
      if (0 <=? e0)%Z then (2 ^ e0 * d <=? n)%Z else (d <=? n * 2 ^ (- e0))%Z in
    let e := if reaches then e0 else (e0 - 1)%Z in
    let p := (Z.max e (-1022) - 52)%Z in
    let N := if (p <? 0)%Z then (n * 2 ^ (- p))%Z else n in
    let D := if (p <? 0)%Z then d else (d * 2 ^ p)%Z in
    let fl := (N / D)%Z in
    let r := (N mod D)%Z in
    let m :=
      if (2 * r <? D)%Z then fl
      else if (D <? 2 * r)%Z then (fl + 1)%Z
      else if Z.even fl then fl else (fl + 1)%Z in
    let neg := (Qnum q <? 0)%Z in
    if ((0 <=? p) && (2 ^ 1024 <=? m * 2 ^ p))%Z
    then (if neg then NegInf else PosInf)
    else
      let v :=
        if (p <? 0)%Z then Qmake m (Z.to_pos (2 ^ (- p)))
        else inject_Z (m * 2 ^ p) in
      Fin (Qred (if neg then Qopp v else v)).

Definition between (lo hi n : N) : bool := ((lo <=? n) && (n <=? hi))%N.

Definition digitOf (base : N) (c : ascii) : option N :=
  let n := Js.code c in
  let v :=
    if between 48 57 n then Some (n - 48)%N
    else if between 97 102 n then Some (n - 87)%N
    else if between 65 70 n then Some (n - 55)%N
    else None in
  match v with
  | Some d => if (d <? base)%N then Some d else None
  | None => None
  end.

(** Reads a run of digits: the value accumulated from [acc], the number of
    digits read, and the rest of the text. *)
Fixpoint digitsGo (base : N) (s : string) (acc : N) (cnt : nat) : N * nat * string :=
  match s with
  | EmptyString => (acc, cnt, s)
  | String c s' =>
      match digitOf base c with
      | Some d => digitsGo base s' (acc * base + d)%N (S cnt)
      | None => (acc, cnt, s)
      end
  end.

Definition radixLiteral (t : string) : option (option N) :=
  let go base rest :=
    let '(v, cnt, tl) := digitsGo base rest 0%N 0%nat in
    match cnt, tl with
    | S _, EmptyString => Some (Some v)
    | _, _ => Some None
    end in
  match t with
  | String "0" (String x rest) =>
      if Ascii.eqb x "x" || Ascii.eqb x "X" then go 16%N rest
      else if Ascii.eqb x "o" || Ascii.eqb x "O" then go 8%N rest
      else if Ascii.eqb x "b" || Ascii.eqb x "B" then go 2%N rest
      else None
  | _ => None
  end.

Definition signOf (t : string) : bool * string :=
  match t with
  | String "-" r => (true, r)
  | String "+" r => (false, r)
  | _ => (false, t)
  end.

(** The decimal exponent after the mantissa: [Some 0] when there is none,
    [None] when the text is malformed. *)
Definition exponentOf (t : string) : option Z :=
  match t with
  | EmptyString => Some 0%Z
  | String x r =>
      if Ascii.eqb x "e" || Ascii.eqb x "E" then
        let '(neg, r') := signOf r in
        let '(v, cnt, tl) := digitsGo 10%N r' 0%N 0%nat in
        match cnt, tl with
        | S _, EmptyString => Some (if neg then (- Z.of_N v)%Z else Z.of_N v)
        | _, _ => None
        end
      else None
  end.

(** The value [m * 10^e], rounded; exponents beyond the range of binary64
    are settled without building the power. *)
Definition scaled (neg : bool) (m : N) (e : Z) : JsNumber :=
  if (m =? 0)%N then Fin 0
  else
    let digits := Z.of_nat (String.length (pretty m)) in
    if (400 <? e + digits)%Z then (if neg then NegInf else PosInf)
    else if (e + digits <? -400)%Z then Fin 0
    else
      let q :=
        if (0 <=? e)%Z then inject_Z (Z.of_N m * 10 ^ e)
        else Qmake (Z.of_N m) (Z.to_pos (10 ^ (- e))) in
      roundDouble (if neg then Qopp q else q).

Definition decimalLiteral (t : string) : JsNumber :=
  let '(neg, r) := signOf t in
  if String.eqb r "Infinity" then (if neg then NegInf else PosInf)
  else
    let '(ip, nip, r1) := digitsGo 10%N r 0%N 0%nat in
    let '(m, nfp, r2) :=
      match r1 with
      | String "." r1' => digitsGo 10%N r1' ip 0%nat
      | _ => (ip, 0%nat, r1)
      end in
    match (nip + nfp)%nat, exponentOf r2 with
    | S _, Some e => scaled neg m (e - Z.of_nat nfp)
    | _, _ => NaN
    end.

(** StringToNumber (ECMA-262 7.1.4.1.1) *)
Definition StringToNumber (s : string) : JsNumber :=
  let t := Js.trim s in
  match t with
  | EmptyString => Fin 0
  | _ =>
      match radixLiteral t with
      | Some (Some v) => roundDouble (inject_Z (Z.of_N v))
      | Some None => NaN
      | None => decimalLiteral t
      end
  end.

(** [n] with [10^(n-1) <= q < 10^n], for a positive [q]. *)
Fixpoint magnitudeBelowOne (fuel : nat) (q : Q) (n : Z) : Z :=
  match fuel with
  | O => n
  | S fuel' =>
      if Qle_bool 1 (q * 10) then n
      else magnitudeBelowOne fuel' (q * 10) (n - 1)%Z
  end.

Definition magnitude (q : Q) : Z :=
  if Qle_bool 1 q then Z.of_nat (String.length (pretty (Z.to_N (Qfloor q))))
  else magnitudeBelowOne 400 q 0%Z.

Definition qpow10 (e : Z) : Q :=
  if (0 <=? e)%Z then inject_Z (10 ^ e) else Qmake 1 (Z.to_pos (10 ^ (- e))).

Definition sameNumber (a b : JsNumber) : bool :=
  match a, b with
  | Fin x, Fin y => Qeq_bool x y
  | _, _ => false
  end.

(** The shortest digit string [s] of length [k] (tried from 1 upwards) and
    the exponent [n] with [s * 10^(n-k)] rounding to [q]. *)
Fixpoint shortest (fuel : nat) (k : Z) (q : Q) (n0 : Z) : Z * Z * Z :=
  let lo := Qfloor (q / qpow10 (n0 - k)) in
  let hi := (lo + 1)%Z in
  let ok s := sameNumber (roundDouble (inject_Z s * qpow10 (n0 - k))) (Fin q) in
  let nearerLo :=
    Qle_bool (q - inject_Z lo * qpow10 (n0 - k)) (inject_Z hi * qpow10 (n0 - k) - q) in
  let pick s := if (s =? 10 ^ k)%Z then ((10 ^ (k - 1))%Z, k, (n0 + 1)%Z) else (s, k, n0) in
  match fuel with
  | O => pick lo
  | S fuel' =>
      if ok lo && ok hi then (if nearerLo then pick lo else pick hi)
      else if ok lo then pick lo
      else if ok hi then pick hi
      else shortest fuel' (k + 1)%Z q n0
  end.

Definition digitsOfZ (z : Z) : string := pretty (Z.to_N z).

(** Number::toString (ECMA-262 6.1.6.1.20), radix 10 *)
Definition NumberToString (x : JsNumber) : string :=
  match x with
  | NaN => "NaN"
  | PosInf => "Infinity"
  | NegInf => "-Infinity"
  | Fin q =>
      if Qeq_bool q 0 then "0"
      else
        let sign := if Qle_bool 0 q then EmptyString else "-" in
        let a := Qabs q in
        let '(s, k, n) := shortest 20 1 a (magnitude a) in
        let ds := digitsOfZ s in
        let kn := Z.to_nat k in
        sign +:+
        (if ((k <=? n) && (n <=? 21))%Z then ds +:+ zeros (Z.to_nat (n - k))
         else if ((0 <? n) && (n <=? 21))%Z
         then take_str (Z.to_nat n) ds +:+ "." +:+ Js.slice (Z.to_nat n) ds
         else if ((-6 <? n) && (n <=? 0))%Z
         then "0." +:+ zeros (Z.to_nat (- n)) +:+ ds
         else
           let e := (n - 1)%Z in
           let es := (if (0 <=? e)%Z then "+" else "-") +:+ digitsOfZ (Z.abs e) in
           match kn with
           | 1%nat => ds +:+ "e" +:+ es
           | _ => take_str 1 ds +:+ "." +:+ Js.slice 1 ds +:+ "e" +:+ es
           end)
  end.

(** *** The URL parser, on its ASCII fragment *)

Definition isAlpha (c : ascii) : bool :=
  let n := Js.code c in between 65 90 n || between 97 122 n.

Definition isDigit (c : ascii) : bool := between 48 57 (Js.code c).

(** C0 control or space *)
Definition isC0OrSpace (c : ascii) : bool := (Js.code c <=? 32)%N.

Definition isTabOrNewline (c : ascii) : bool :=
  let n := Js.code c in (n =? 9)%N || (n =? 10)%N || (n =? 13)%N.

Fixpoint dropWhileStr (f : ascii → bool) (s : string) : string :=
  match s with
  | EmptyString => EmptyString
  | String c s' => if f c then dropWhileStr f s' else s
  end.

Fixpoint dropWhileEndStr (f : ascii → bool) (s : string) : string :=
  match s with
  | EmptyString => EmptyString
  | String c s' =>
      match dropWhileEndStr f s' with
      | EmptyString => if f c then EmptyString else String c EmptyString
      | t => String c t
      end
  end.

Fixpoint filterStr (f : ascii → bool) (s : string) : string :=
  match s with
  | EmptyString => EmptyString
  | String c s' => if f c then String c (filterStr f s') else filterStr f s'
  end.

Fixpoint existsStr (f : ascii → bool) (s : string) : bool :=
  match s with
  | EmptyString => false
  | String c s' => f c || existsStr f s'
  end.

Fixpoint allStr (f : ascii → bool) (s : string) : bool :=
  match s with
  | EmptyString => true
  | String c s' => f c && allStr f s'
  end.

(** The text before the first character satisfying [f], and the text from
    that character on. *)
Fixpoint breakStr (f : ascii → bool) (s : string) : string * string :=
  match s with
  | EmptyString => (EmptyString, EmptyString)
  | String c s' =>
      if f c then (EmptyString, s)
      else let '(a, b) := breakStr f s' in (String c a, b)
  end.

(** Scheme state: the scheme, lower-cased, and the text after its colon. *)
Fixpoint schemeGo (s : string) (acc : string) : option (string * string) :=
  match s with
  | EmptyString => None
  | String c s' =>
      if Ascii.eqb c ":" then Some (Js.toLowerCase acc, s')
      else if isAlpha c || isDigit c || Ascii.eqb c "+" || Ascii.eqb c "-" || Ascii.eqb c "."
      then schemeGo s' (acc +:+ String c EmptyString)
      else None
  end.

Definition schemeOf (s : string) : option (string * string) :=
  match s with
  | String c s' => if isAlpha c then schemeGo s' (String c EmptyString) else None
  | EmptyString => None
  end.

Definition isSlash (c : ascii) : bool := Ascii.eqb c "/" || Ascii.eqb c "\".

Definition endsAuthority (c : ascii) : bool :=
  isSlash c || Ascii.eqb c "?" || Ascii.eqb c "#".

(** The text after the last [@], if there is one. *)
Fixpoint afterLastAt (s : string) : option string :=
  match s with
  | EmptyString => None
  | String c s' =>
      match afterLastAt s' with
      | Some t => Some t
      | None => if Ascii.eqb c "@" then Some s' else None
      end
  end.

Definition forbiddenDomainChar (c : ascii) : bool :=
  let n := Js.code c in
  (n <=? 32)%N || (n =? 127)%N ||
  existsb (Ascii.eqb c) ["#"; "/"; ":"; "<"; ">"; "?"; "@"; "["; "\"; "]"; "^"; "|"; "%"]%char.

Definition nonAscii (c : ascii) : bool := (128 <=? Js.code c)%N.

Definition isHexDigit (c : ascii) : bool :=
  match digitOf 16 c with Some _ => true | None => false end.

(** The label of an IPv4 number: decimal digits, or [0x] and hex digits. *)
Definition numericLabel (l : string) : bool :=
  match l with
  | EmptyString => false
  | String "0" (String x r) =>
      if Ascii.eqb x "x" || Ascii.eqb x "X" then allStr isHexDigit r
      else allStr isDigit l
  | _ => allStr isDigit l
  end.

Definition lastLabel (h : string) : string :=
  match rev (Js.split "." h) with
  | EmptyString :: l :: _ => l
  | l :: _ => l
  | [] => EmptyString
  end.

Definition punycodeLabel (l : string) : bool := Js.startsWith l "xn--".

(** Host parsing of a special scheme, for an ASCII domain. *)
Definition domainOf (host : string) : option string :=
  let h := Js.toLowerCase host in
  if existsStr nonAscii host then None
  else if existsStr forbiddenDomainChar host then None
  else if existsb punycodeLabel (Js.split "." h) then None
  else if numericLabel (lastLabel h) then None
  else Some h.

Definition portOk (p : string) : bool :=
  allStr isDigit p &&
  let '(v, _, _) := digitsGo 10%N p 0%N 0%nat in (v <=? 65535)%N.

Definition specialSchemes : list string := ["http"; "https"; "ws"; "wss"; "ftp"].

(** [new URL(s).hostname] without a base URL *)
Definition URLHostname (s : string) : option string :=
  let s1 := dropWhileEndStr isC0OrSpace (dropWhileStr isC0OrSpace s) in
  let s2 := filterStr (fun c => negb (isTabOrNewline c)) s1 in
  '(scheme, rest) ← schemeOf s2;
  if negb (existsb (String.eqb scheme) specialSchemes) then None
  else
    let '(authority, _) := breakStr endsAuthority (dropWhileStr isSlash rest) in
    let hostport := default authority (afterLastAt authority) in
    let '(host, port) := breakStr (Ascii.eqb ":") hostport in
    match host with
    | EmptyString => None
    | String _ _ => if portOk (Js.slice 1 port) then domainOf host else None
    end.

(** The first line of the stack trace of [new Error(msg)]; the frames that
    follow depend on the call site and are left out. *)
Definition errorStack (msg : string) : string := "Error: " +:+ msg.

End Ref.

Instance refEngine : Engine := {|
  StringToNumber := Ref.StringToNumber;
  NumberToString := Ref.NumberToString;
  URLHostname := Ref.URLHostname;
  errorStack := Ref.errorStack;
|}.

(** ** The simpler versions of the script

    The repository holds two more versions of the script, without retries
    and without the error record.  The first one in [main.js] shares
    [buildRegex], [rootDomain], the extractor and [dedupeRows] with the
    resilient one modelled above, but reads the flat bounding-box fields
    with [Number(v ?? default)], does not validate the box, asks each
    endpoint once and has no [try]/[catch] around the pipeline.  The one in
    the unnamed file escapes the keywords without cleaning them. *)

Module Legacy.

Definition requestHeaders : list (string * string) :=
  [("Content-Type", "application/x-www-form-urlencoded")].

Section Pipeline.
Context {engine : Engine}.
Variable world : World.

(** [Number(v ?? def)] *)
Definition numberOr (v : JsVal) (def : JsNumber) : JsNumber :=
  match v with
  | VUndefined | VNull => def
  | _ => ToNumber v
  end.

Definition resolveBBox (input : Input) : BBox :=
  match in_bbox input with
  | Some b => b
  | None =>
      {| south := VNum (numberOr (in_bbox_south input) num_29_10);
         west := VNum (numberOr (in_bbox_west input) num_m98_85);
         north := VNum (numberOr (in_bbox_north input) num_29_75);
         east := VNum (numberOr (in_bbox_east input) num_m98_10) |}
  end.

(** The body of the [try] block for one endpoint. *)
Definition attemptOnce (ep ql : string) : M Json :=
  res <~ doFetch world ep requestHeaders ql ;;
  if negb (res_ok res) then throw (newError ("Overpass HTTP " +:+ pretty (res_status res)))
  else lift (res_json res).

Fixpoint endpointLoop (ql : string) (eps : list string) (lastErr : option JsError)
    : M (Json + option JsError) :=
  match eps with
  | [] => ret (inr lastErr)
  | ep :: rest =>
      c <~ try (attemptOnce ep ql) ;;
      match c with
      | Normal json => ret (inl json)
      | Throw e => endpointLoop ql rest (Some e)
      end
  end.

Definition queryOverpass (ql : string) : M Json :=
  r <~ endpointLoop ql OVERPASS_ENDPOINTS None ;;
  match r with
  | inl json => ret json
  | inr lastErr => throw (default (newError "All Overpass endpoints failed") lastErr)
  end.

(** [Actor.main] of the first version in [main.js]: nothing is caught. *)
Definition main : M unit :=
  let input := default emptyInput (w_input world) in
  let bbox := resolveBBox input in
  let keywords := resolveKeywords input in
  let city := resolveCity input in
  let nameRegex := buildRegex keywords in
  let ql := overpassQL 4 nameRegex bbox in
  json <~ queryOverpass ql ;;
  let elements := elementsOf json in
  let rows := extractRows keywords city elements in
  let deduped := dedupeRows rows in
  emit (EvPushData deduped) ;;;
  emit (EvSetValue "RUN-SUMMARY" (SummaryValue
    {| found := length rows; deduped := length deduped;
       sum_bbox := bbox; sum_keywords := keywords;
       sum_city := city; hint := hintText |})).

Definition run : Completion unit * list Event :=
  let '(c, s) := main initSt in (c, st_trace s).

End Pipeline.

(** [buildRegex] of the version in the unnamed file *)
Definition buildRegex (keywords : list string) : string :=
  "(?i)(" +:+ Js.join "|" (map escapeRegex keywords) +:+ ")".

(** [evidenceNote] of the version in the unnamed file: the keywords are
    neither filtered nor lower-cased before they are reported. *)
Definition evidenceNote (tags : Tags) (keywords : list string) : string :=
  let n := Js.toLowerCase (Js.or (tag tags "name") EmptyString) in
  let hits := List.filter (fun k => Js.includes n (Js.toLowerCase k)) keywords in
  match hits with
  | [] => EmptyString
  | _ :: _ => "name_keywords=" +:+ Js.join "," hits
  end.

End Legacy.

(** ** The specification's reading of [rootDomain]

    The specification words the prefix rule as "when no scheme is given".
    [hasScheme] is the URL-scheme syntax (a letter, then letters, digits,
    [+], [-] or [.], then a colon), and [rootDomainByScheme] is [rootDomain]
    with the program's test replaced by it. *)

Definition hasScheme (url : string) : bool :=
  match Ref.schemeOf url with Some _ => true | None => false end.

Definition rootDomainByScheme {engine : Engine} (url : string) : string :=
  if negb (Js.truthy url) then EmptyString
  else
    match URLHostname (if hasScheme url then url else "http://" +:+ url) with
    | Some hostname =>
        let h := Js.toLowerCase hostname in
        if Js.startsWith h "www." then Js.slice 4 h else h
    | None => EmptyString
    end.

(** ** Notions used in the statements

    The definitions below name what the properties talk about: what a
    pattern denotes, which delivery attempts a call makes and how each of
    them completes, what a run leaves behind. *)

(** A string is tight at its start when it does not begin with white space. *)
Definition tightStart (s : string) : Prop :=
  match s with
  | EmptyString => True
  | String c _ => Js.isWhiteSpace c = false
  end.

(** A string of white space only trims to the empty string. *)
Fixpoint blank (s : string) : bool :=
  match s with
  | EmptyString => true
  | String c s' => Js.isWhiteSpace c && blank s'
  end.

(** A string is tight at its end when it does not end with white space. *)
Fixpoint tightEnd (s : string) : Prop :=
  match s with
  | EmptyString => True
  | String c s' =>
      match s' with
      | EmptyString => Js.isWhiteSpace c = false
      | String _ _ => tightEnd s'
      end
  end.

(** The literal alternatives of a group body given as text. *)
Definition decodeBody (s : string) : option (list string) :=
  tokenize false s ≫= literalAlternatives.

Definition prepend (k : string) (alts : list string) : option (list string) :=
  match alts with
  | [] => None
  | a :: rest => Some ((k +:+ a) :: rest)
  end.

(** The first row bearing key [k]. *)
Definition firstWithKey (k : string) (rows : list Row) : option Row :=
  find (fun r => String.eqb (dedupKey r) k) rows.

(** The [name] tag of an element, if it has one. *)
Definition nameTag (el : Element) : option string := el_tags el ≫= (.!! "name").

(** An element is unnamed when its [name] tag is absent, empty, or made of
    white space only. *)
Definition unnamed (el : Element) : bool :=
  match nameTag el with
  | None => true
  | Some n => blank n
  end.

(** The element kind written into [source_url]. *)
Definition osmKind (el : Element) : string :=
  if decide (el_type el = Some "node") then "node" else "way".

(** The text [tags.name || ''] that the extractor trims and searches. *)
Definition rawName (el : Element) : string := tag (default ∅ (el_tags el)) "name".

(** [h.startsWith('www.') ? h.slice(4) : h] *)
Definition stripWww (h : string) : string :=
  if Js.startsWith h "www." then Js.slice 4 h else h.

Definition isPushData (ev : Event) : bool :=
  match ev with EvPushData _ => true | _ => false end.

Definition isFetch (ev : Event) : bool :=
  match ev with EvFetch _ _ _ => true | _ => false end.

Definition isStore (ev : Event) : bool :=
  match ev with EvPushData _ | EvSetValue _ _ => true | _ => false end.

(** The error record written by the [catch] block. *)
Definition errorEvents (e : JsError) : list Event :=
  [EvLog (LogFatal (message e));
   EvSetValue "ERROR" (ErrorValue (message e) (stack e))].

(** [{ bbox_south: v }] *)
Definition inputWithSouth (v : JsVal) : Input :=
  {| in_bbox := None;
     in_bbox_south := v; in_bbox_west := VUndefined;
     in_bbox_north := VUndefined; in_bbox_east := VUndefined;
     in_keywords := None; in_keyword_list := None; in_city := None |}.

Definition defaultBBox : BBox :=
  {| south := VNum num_29_10; west := VNum num_m98_85;
     north := VNum num_29_75; east := VNum num_m98_10 |}.

(** One delivery attempt, as observed: the endpoint, the attempt number and
    how the attempt completed. *)
Record Attempt : Type := mkAttempt {
  at_ep : string;
  at_number : nat;
  at_result : Completion Json;
}.

Section Observations.
Context {engine : Engine}.
Variable world : World.
Variable ql : string.

(** [res.headers.get('content-type') || ''] *)
Definition contentType (r : Response) : string :=
  Js.or (default EmptyString (res_contentType r)) EmptyString.

(** How an attempt completes, given what [fetch] did. *)
Definition attemptResult (o : FetchOutcome) : Completion Json :=
  match o with
  | FetchRejects e => Throw e
  | FetchResolves r =>
      if negb (res_ok r) then Throw (newError ("HTTP " +:+ pretty (res_status r)))
      else if negb (Js.includes (contentType r) "application/json")
      then Throw (newError ("Unexpected content-type: " +:+ contentType r))
      else res_json r
  end.

(** The order of delivery: every endpoint in list order, three numbered
    attempts each. *)
Definition schedule : list (string * nat) :=
  flat_map (fun ep => map (pair ep) [1; 2; 3]) OVERPASS_ENDPOINTS.

(** The attempts made from the [n]-th [fetch] call on: the schedule is
    followed up to and including the first attempt that succeeds. *)
Fixpoint attemptsFrom (n : nat) (sched : list (string * nat)) : list Attempt :=
  match sched with
  | [] => []
  | (ep, k) :: rest =>
      let c := attemptResult (w_fetch world n ep ql) in
      {| at_ep := ep; at_number := k; at_result := c |} ::
      match c with
      | Normal _ => []
      | Throw _ => attemptsFrom (S n) rest
      end
  end.

(** The effects of one attempt; a failed one is logged and followed by a
    pause of 700 ms times the attempt number. *)
Definition attemptEvents (a : Attempt) : list Event :=
  [EvLog (LogAttempt (at_ep a) (at_number a)); EvFetch (at_ep a) requestHeaders ql] ++
  match at_result a with
  | Normal _ => []
  | Throw e => [EvLog (LogFailed (at_ep a) (at_number a) (message e)); EvSleep (700 * at_number a)]
  end.

(** What the loops hand over after the attempts [made]: the json of the last
    attempt when it succeeded, otherwise the last error seen. *)
Definition outcomeOf (made : list Attempt) (lastErr : option JsError) : Json + option JsError :=
  match last made with
  | Some a =>
      match at_result a with
      | Normal json => inl json
      | Throw e => inr (Some e)
      end
  | None => inr lastErr
  end.

Definition resultOf (made : list Attempt) : Completion Json :=
  match outcomeOf made None with
  | inl json => Normal json
  | inr lastErr => Throw (default (newError "All Overpass endpoints failed") lastErr)
  end.

Definition after (s : St) (made : list Attempt) : St :=
  {| st_calls := st_calls s + length made;
     st_trace := st_trace s ++ concat (map attemptEvents made) |}.

End Observations.

Section RunObservations.
Context {engine : Engine}.
Variable world : World.

(** The trace of a run, by the stage that ends it. *)
Definition runTrace : list Event :=
  match normalizeInput (default emptyInput (w_input world)) with
  | Throw e => errorEvents e
  | Normal cfg =>
      let ql := overpassQL 6 (buildRegex (cfg_keywords cfg)) (cfg_bbox cfg) in
      let made := attemptsFrom world ql 0 schedule in
      concat (map (attemptEvents ql) made) ++
      match resultOf made with
      | Throw e => errorEvents e
      | Normal json =>
          let rows := extractRows (cfg_keywords cfg) (cfg_city cfg) (elementsOf json) in
          [EvPushData (dedupeRows rows);
           EvSetValue "RUN-SUMMARY" (SummaryValue
             {| found := length rows; deduped := length (dedupeRows rows);
                sum_bbox := cfg_bbox cfg; sum_keywords := cfg_keywords cfg;
                sum_city := cfg_city cfg; hint := hintText |})]
      end
  end.

End RunObservations.

(** *** Further notions *)

(** [s] holds no character [c]. *)
Fixpoint lacks (c : ascii) (s : string) : bool :=
  match s with
  | EmptyString => true
  | String a s' => negb (Ascii.eqb a c) && lacks c s'
  end.




(** The time a trace spends in pauses, in milliseconds. *)
Definition sleepOf (ev : Event) : nat :=
  match ev with EvSleep ms => ms | _ => 0 end.

Definition sleepTotal (evs : list Event) : nat := sum_list (sleepOf <$> evs).

(** An input object with the four flat fields only. *)
Definition flatInput (s w n e : JsVal) : Input :=
  {| in_bbox := None;
     in_bbox_south := s; in_bbox_west := w;
     in_bbox_north := n; in_bbox_east := e;
     in_keywords := None; in_keyword_list := None; in_city := None |}.

(** A box of four finite numbers. *)
Definition boxOf (s w n e : Q) : BBox :=
  {| south := VNum (Fin s); west := VNum (Fin w);
     north := VNum (Fin n); east := VNum (Fin e) |}.

(** An input object with a comma-separated keyword text only. *)
Definition inputWithKeywordList (text : string) : Input :=
  {| in_bbox := None;
     in_bbox_south := VUndefined; in_bbox_west := VUndefined;
     in_bbox_north := VUndefined; in_bbox_east := VUndefined;
     in_keywords := None; in_keyword_list := Some text; in_city := None |}.

(** How a request of the first version completes, given what [fetch] did:
    the content type is not looked at. *)
Definition plainResult {engine : Engine} (o : FetchOutcome) : Completion Json :=
  match o with
  | FetchRejects e => Throw e
  | FetchResolves r =>
      if negb (res_ok r)
      then Throw (newError ("Overpass HTTP " +:+ pretty (res_status r)))
      else res_json r
  end.

(** ** Data for the examples *)

(** A row with the three fields that matter to the deduplicator. *)
Definition rowOf (n d c : string) : Row :=
  {| name := n; domain := d; city := c; category := EmptyString;
     source_url := EmptyString; lat := EmptyString; lon := EmptyString;
     confidence := EmptyString; notes := EmptyString |}.

Definition elementOf (kind : string) (id : Z) (tags : Tags) : Element :=
  {| el_type := Some kind; el_id := VNum (Fin (inject_Z id));
     el_lat := Some num_29_75; el_lon := Some num_m98_10;
     el_center := None; el_tags := Some tags |}.

Definition luxe : Element :=
  elementOf "way" 7 {[ "shop" := "beauty"; "name" := "Luxe Aesthetics" ]}.

Definition glow : Element :=
  elementOf "node" 42
    {[ "leisure" := "spa"; "name" := "Glow Med Spa"; "website" := "http://glow.com" ]}.

Definition luxeRow : Row :=
  {| name := "Luxe Aesthetics"; domain := EmptyString; city := "San Antonio";
     category := "beauty"; source_url := "https://www.openstreetmap.org/way/7";
     lat := "29.750000"; lon := "-98.100000"; confidence := "0.70";
     notes := "name_keywords=aesthetic" |}.

Definition glowRow : Row :=
  {| name := "Glow Med Spa"; domain := "glow.com"; city := "San Antonio";
     category := "spa"; source_url := "https://www.openstreetmap.org/node/42";
     lat := "29.750000"; lon := "-98.100000"; confidence := "1.00";
     notes := EmptyString |}.

Definition alphaRow : Row :=
  {| name := "Alpha Med Spa"; domain := "a.com"; city := "San Antonio";
     category := EmptyString; source_url := "https://www.openstreetmap.org/node/1";
     lat := "29.750000"; lon := "-98.100000"; confidence := "1.00";
     notes := "name_keywords=med spa" |}.

(** Two places sharing a web site, and an element without a proper name. *)
Definition twins : list Element :=
  [elementOf "node" 1 {[ "name" := "Alpha Med Spa"; "website" := "https://www.a.com/" ]};
   elementOf "way" 2 {[ "name" := "Alpha Aesthetics"; "contact:website" := "a.com" ]};
   elementOf "node" 3 {[ "name" := "   " ]}].

Definition goodResponse : Response :=
  {| res_ok := true; res_status := 200;
     res_contentType := Some "application/json; charset=utf-8";
     res_json := Normal (JsonElements twins) |}.

(** A platform whose first four requests are refused and whose later ones
    are answered. *)
Definition demoWorld : World :=
  {| w_input := None;
     w_fetch := fun n _ _ =>
       if (n <? 4)%nat then FetchRejects (newError "fetch failed")
       else FetchResolves goodResponse |}.

(** A platform that answers every request with a gateway timeout. *)
Definition deadWorld : World :=
  {| w_input := None;
     w_fetch := fun n _ _ =>
       FetchResolves {| res_ok := false; res_status := 504;
                        res_contentType := None; res_json := Normal JsonOther |} |}.

(** An input whose nested box has a latitude out of range. *)
Definition badBoxWorld : World :=
  {| w_input := Some
       {| in_bbox := Some {| south := VNum (Fin 200); west := VNum num_m98_85;
                             north := VNum num_29_75; east := VNum num_m98_10 |};
          in_bbox_south := VUndefined; in_bbox_west := VUndefined;
          in_bbox_north := VUndefined; in_bbox_east := VUndefined;
          in_keywords := None; in_keyword_list := Some "botox, ,laser";
          in_city := None |};
     w_fetch := fun _ _ _ => FetchResolves goodResponse |}.

Definition demoQL : string := overpassQL 6 (buildRegex defaultKws) defaultBBox.

Definition fifthAttempt : Attempt :=
  {| at_ep := "https://overpass.kumi.systems/api/interpreter"; at_number := 2;
     at_result := Normal (JsonElements twins) |}.

(** A platform whose first answer is well-formed json without an
    [elements] array. *)
Definition shapelessWorld : World :=
  {| w_input := None;
     w_fetch := fun _ _ _ =>
       FetchResolves {| res_ok := true; res_status := 200;
                        res_contentType := Some "application/json";
                        res_json := Normal JsonOther |} |}.

(** The configuration of the empty input. *)
Definition defaultConfig : Config :=
  {| cfg_bbox := defaultBBox; cfg_keywords := defaultKws; cfg_city := "San Antonio" |}.

(** * Properties *)

(** ** Strings *)

Lemma append_cons (c : ascii) (s t : string) : String c s +:+ t = String c (s +:+ t).
Proof. reflexivity. Qed.

Lemma append_empty_l (s : string) : EmptyString +:+ s = s.
Proof. reflexivity. Qed.

Lemma append_empty_r (s : string) : s +:+ EmptyString = s.
Proof. induction s as [|c s IH]; [reflexivity | by rewrite append_cons, IH]. Qed.

Lemma append_assoc (a b c : string) : (a +:+ b) +:+ c = a +:+ (b +:+ c).
Proof.
  induction a as [|x a IH]; [reflexivity | by rewrite !append_cons, IH].
Qed.

Lemma startsWith_refl (s : string) : Js.startsWith s s = true.
Proof.
  induction s as [|c s IH]; simpl; [reflexivity|].
  by rewrite Ascii.eqb_refl, IH.
Qed.

Lemma includes_refl (s : string) : Js.includes s s = true.
Proof. destruct s; simpl; [reflexivity|]. by rewrite Ascii.eqb_refl, startsWith_refl. Qed.

Lemma truthy_true (s : string) : Js.truthy s = true ↔ s ≠ EmptyString.
Proof. destruct s; simpl; split; congruence. Qed.

Lemma truthy_false (s : string) : Js.truthy s = false ↔ s = EmptyString.
Proof. destruct s; simpl; split; congruence. Qed.

Lemma trimStart_tight (s : string) : tightStart (Js.trimStart s).
Proof.
  induction s as [|c s IH]; simpl; [exact I|].
  destruct (Js.isWhiteSpace c) eqn:E; [exact IH | exact E].
Qed.

Lemma trimStart_of_tight (s : string) : tightStart s → Js.trimStart s = s.
Proof. destruct s as [|c s]; simpl; [reflexivity|]. by intros ->. Qed.

Lemma trimEnd_tight (s : string) : tightStart s → tightStart (Js.trimEnd s).
Proof.
  destruct s as [|c s]; simpl; [done|].
  intros Hc. destruct (Js.trimEnd s); simpl; [by rewrite Hc | exact Hc].
Qed.

Lemma trimEnd_cons (c : ascii) (s : string) :
  Js.trimEnd (String c s)
  = match Js.trimEnd s with
    | EmptyString => if Js.isWhiteSpace c then EmptyString else String c EmptyString
    | t => String c t
    end.
Proof. reflexivity. Qed.

Lemma trimEnd_idem (s : string) : Js.trimEnd (Js.trimEnd s) = Js.trimEnd s.
Proof.
  induction s as [|c s IH]; [reflexivity|].
  rewrite trimEnd_cons.
  destruct (Js.trimEnd s) as [|d t] eqn:E.
  - destruct (Js.isWhiteSpace c) eqn:Ec; [reflexivity|].
    rewrite trimEnd_cons. simpl. by rewrite Ec.
  - rewrite trimEnd_cons, IH. reflexivity.
Qed.

Lemma trim_idem (s : string) : Js.trim (Js.trim s) = Js.trim s.
Proof.
  unfold Js.trim.
  rewrite (trimStart_of_tight (Js.trimEnd _)).
  - apply trimEnd_idem.
  - apply trimEnd_tight, trimStart_tight.
Qed.

Lemma trimEnd_empty_iff (s : string) : Js.trimEnd s = EmptyString ↔ blank s = true.
Proof.
  induction s as [|c s IH]; simpl; [done|].
  destruct (Js.trimEnd s) eqn:E.
  - destruct (Js.isWhiteSpace c); simpl.
    + split; [intros _; by apply IH | done].
    + split; done.
  - split; [done|]. intros [_ Hb]%andb_true_iff. apply IH in Hb. done.
Qed.

Lemma trim_empty_iff (s : string) : Js.trim s = EmptyString ↔ blank s = true.
Proof.
  unfold Js.trim. rewrite trimEnd_empty_iff.
  induction s as [|c s IH]; simpl; [done|].
  destruct (Js.isWhiteSpace c) eqn:E; simpl; [exact IH | by rewrite E].
Qed.

(** ** Query Builder *)

Section BuildRegex.

Lemma isMeta_backslash (c : ascii) : isMeta c = false → Ascii.eqb c "\" = false.
Proof.
  intros Hc. destruct (Ascii.eqb c "\") eqn:E; [|reflexivity].
  apply Ascii.eqb_eq in E. subst c. discriminate Hc.
Qed.

Lemma literalAlternatives_nonempty (ts : list token) :
  literalAlternatives ts ≠ Some [].
Proof.
  induction ts as [|[c|c|c] ts IH]; simpl; try discriminate.
  - destruct (literalAlternatives ts) as [[|a l]|]; simpl; discriminate.
  - destruct (Ascii.eqb c ")"); [destruct ts; discriminate|].
    destruct (Ascii.eqb c "|"); [|discriminate].
    destruct (literalAlternatives ts); discriminate.
Qed.

Lemma decodeBody_nonempty (s : string) : decodeBody s ≠ Some [].
Proof.
  unfold decodeBody. destruct (tokenize false s) as [ts|]; simpl; [|discriminate].
  apply literalAlternatives_nonempty.
Qed.

(** Reading one escaped character gives back the character itself. *)
Lemma decodeBody_escape_char (c : ascii) (k rest : string) :
  decodeBody (escapeRegex (String c k) +:+ rest)
  = decodeBody (escapeRegex k +:+ rest) ≫= pushChar c.
Proof.
  unfold decodeBody. cbn [escapeRegex].
  destruct (isMeta c) eqn:Hm; rewrite !append_cons; cbn [tokenize].
  - rewrite Ascii.eqb_refl. cbn [tokenize]. rewrite Hm.
    destruct (tokenize false (escapeRegex k +:+ rest)); reflexivity.
  - rewrite (isMeta_backslash c Hm), Hm.
    destruct (tokenize false (escapeRegex k +:+ rest)); reflexivity.
Qed.

Lemma decodeBody_escape (k rest : string) :
  decodeBody (escapeRegex k +:+ rest) = decodeBody rest ≫= prepend k.
Proof.
  induction k as [|c k IH].
  - cbn [escapeRegex]. rewrite append_empty_l.
    pose proof (decodeBody_nonempty rest) as Hne.
    destruct (decodeBody rest) as [[|a l]|]; try reflexivity. congruence.
  - rewrite decodeBody_escape_char, IH.
    destruct (decodeBody rest) as [[|a l]|]; reflexivity.
Qed.

Lemma decodeBody_close : decodeBody ")" = Some [EmptyString].
Proof. reflexivity. Qed.

Lemma decodeBody_bar (rest : string) :
  decodeBody ("|" +:+ rest) = cons EmptyString <$> decodeBody rest.
Proof.
  unfold decodeBody. rewrite append_cons, append_empty_l. cbn.
  destruct (tokenize false rest); reflexivity.
Qed.

(** Escaping round-trips through a whole alternation. *)
Lemma decodeBody_join (k : string) (ks : list string) :
  decodeBody (Js.join "|" (map escapeRegex (k :: ks)) +:+ ")") = Some (k :: ks).
Proof.
  revert k. induction ks as [|k2 ks IH]; intros k.
  - cbn [map Js.join]. rewrite decodeBody_escape, decodeBody_close. simpl.
    by rewrite append_empty_r.
  - change (Js.join "|" (map escapeRegex (k :: k2 :: ks)))
      with (escapeRegex k +:+ "|" +:+ Js.join "|" (map escapeRegex (k2 :: ks))).
    rewrite !append_assoc, decodeBody_escape, decodeBody_bar, IH. simpl.
    by rewrite append_empty_r.
Qed.

Lemma decodePattern_wrap (body : string) :
  decodePattern ("(?i)(" +:+ body +:+ ")") = decodeBody (body +:+ ")").
Proof. reflexivity. Qed.

Lemma cleanKeywords_spec (keywords : list string) (k : string) :
  k ∈ cleanKeywords keywords ↔ k ≠ EmptyString ∧ ∃ k0, k0 ∈ keywords ∧ k = Js.trim k0.
Proof.
  unfold cleanKeywords.
  rewrite list_elem_of_In, filter_In, in_map_iff, truthy_true.
  split.
  - intros [(k0 & <- & Hin) Hne]. split; [exact Hne|].
    exists k0. by rewrite list_elem_of_In.
  - intros [Hne (k0 & Hin & ->)]. split; [|exact Hne].
    exists k0. by rewrite <- list_elem_of_In.
Qed.

(** The class of the replace call, character by character. *)
Lemma isMeta_chars (c : ascii) :
  isMeta c
  = bool_decide (c ∈ ["."; "*"; "+"; "?"; "^"; "$"; "{"; "}"; "("; ")"; "|"; "["; "]"; "\"]%char).
Proof.
  unfold isMeta, metaChars.
  generalize ["."; "*"; "+"; "?"; "^"; "$"; "{"; "}"; "("; ")"; "|"; "["; "]"; "\"]%char.
  intros l. induction l as [|a l IH]; [reflexivity|].
  cbn [existsb]. rewrite IH. destruct (Ascii.eqb_spec c a) as [->|Hne]; cbn [orb].
  - symmetry. apply bool_decide_eq_true. left.
  - apply bool_decide_ext. rewrite elem_of_cons. tauto.
Qed.

Lemma escapeRegex_cons (c : ascii) (k : string) :
  escapeRegex (String c k)
  = (if isMeta c then String "\" (String c EmptyString) else String c EmptyString)
    +:+ escapeRegex k.
Proof. cbn [escapeRegex]. by destruct (isMeta c). Qed.

Lemma trimStart_decompose (s : string) :
  ∃ l, s = l +:+ Js.trimStart s ∧ blank l = true.
Proof.
  induction s as [|c s (l & Hl & Hb)]; [by exists EmptyString|].
  cbn [Js.trimStart]. destruct (Js.isWhiteSpace c) eqn:Hc.
  - exists (String c l). rewrite append_cons, <- Hl. cbn [blank]. by rewrite Hc, Hb.
  - by exists EmptyString.
Qed.

Lemma trimEnd_decompose (s : string) :
  ∃ r, s = Js.trimEnd s +:+ r ∧ blank r = true.
Proof.
  induction s as [|c s (r & Hr & Hb)]; [by exists EmptyString|].
  rewrite trimEnd_cons. destruct (Js.trimEnd s) as [|d t] eqn:Et.
  - change (EmptyString +:+ r) with r in Hr. subst r.
    destruct (Js.isWhiteSpace c) eqn:Hc.
    + exists (String c s). split; [reflexivity|]. cbn [blank]. by rewrite Hc, Hb.
    + exists s. split; [reflexivity | exact Hb].
  - exists r. split; [|exact Hb]. rewrite append_cons. by rewrite <- Hr.
Qed.

Lemma trimEnd_tightEnd (s : string) : tightEnd (Js.trimEnd s).
Proof.
  induction s as [|c s IH]; [exact I|].
  rewrite trimEnd_cons. destruct (Js.trimEnd s) as [|d t].
  - destruct (Js.isWhiteSpace c) eqn:Hc; [exact I | exact Hc].
  - exact IH.
Qed.

(** Trimming removes white space from both ends, and nothing else. *)
Lemma trim_decompose (s : string) :
  ∃ l r, s = l +:+ Js.trim s +:+ r ∧ blank l = true ∧ blank r = true
         ∧ tightStart (Js.trim s) ∧ tightEnd (Js.trim s).
Proof.
  destruct (trimStart_decompose s) as (l & Hl & Hbl).
  destruct (trimEnd_decompose (Js.trimStart s)) as (r & Hr & Hbr).
  exists l, r. unfold Js.trim. split_and!.
  - by rewrite <- Hr.
  - exact Hbl.
  - exact Hbr.
  - apply trimEnd_tight, trimStart_tight.
  - apply trimEnd_tightEnd.
Qed.

Lemma cleanKeywords_filter (keywords : list string) :
  cleanKeywords keywords
  = List.filter (fun k => negb (String.eqb k EmptyString)) (map Js.trim keywords).
Proof.
  unfold cleanKeywords. apply filter_ext. by intros [|c k].
Qed.

End BuildRegex.

(** C1.  [buildRegex] works on the keywords it is given, each trimmed (white
    space removed from both ends and nothing else) and the empty ones
    dropped.  Every character of a kept keyword that is one of
    . * + ? ^ $ { } ( ) | [ ] \ is preceded by a backslash, every other
    character is left as it is.  When no keyword is kept, the pattern is the
    built-in default wrapped in [(?i)(...)].  Otherwise it is the wrapped
    [|]-join of the escaped keywords; reading the pattern back as a regular
    expression yields exactly the kept keywords as literal alternatives, so
    the pattern finds a text precisely when one of them occurs in it, and it
    finds each kept keyword itself. *)
Theorem buildRegex_escaping_roundtrip (keywords : list string) :
  let kept :=
    List.filter (fun k => negb (String.eqb k EmptyString)) (map Js.trim keywords) in
  let escaped (c : ascii) :=
    if bool_decide
         (c ∈ ["."; "*"; "+"; "?"; "^"; "$"; "{"; "}"; "("; ")"; "|"; "["; "]"; "\"]%char)
    then String "\" (String c EmptyString) else String c EmptyString in
  cleanKeywords keywords = kept
  ∧ (∀ k0, ∃ l r, k0 = l +:+ Js.trim k0 +:+ r ∧ blank l = true ∧ blank r = true
                  ∧ tightStart (Js.trim k0) ∧ tightEnd (Js.trim k0))
  ∧ escapeRegex EmptyString = EmptyString
  ∧ (∀ c k, escapeRegex (String c k) = escaped c +:+ escapeRegex k)
  ∧ match kept with
    | [] =>
        buildRegex keywords
        = "(?i)(med\s*spa|medspa|aesthetic|inject|botox|laser|hydrafacial)"
    | _ :: _ =>
        buildRegex keywords = "(?i)(" +:+ Js.join "|" (map escapeRegex kept) +:+ ")"
        ∧ Forall (fun k => k ≠ EmptyString ∧ Js.trim k = k) kept
        ∧ decodePattern (buildRegex keywords) = Some kept
        ∧ (∀ text, patternFinds (buildRegex keywords) text
                   = existsb (fun k => Js.includes (Js.toLowerCase text) (Js.toLowerCase k))
                       kept)
        ∧ Forall (fun k => patternFinds (buildRegex keywords) k = true) kept
    end.
Proof.
  intros kept escaped.
  pose proof (cleanKeywords_spec keywords) as Hspec.
  pose proof (cleanKeywords_filter keywords) as Hkept. fold kept in Hkept.
  split_and!.
  - exact Hkept.
  - apply trim_decompose.
  - reflexivity.
  - intros c k. unfold escaped. rewrite <- isMeta_chars. apply escapeRegex_cons.
  - unfold buildRegex, patternFinds. rewrite Hkept in *. clearbody kept.
    destruct kept as [|k ks]; [reflexivity|].
    cbn [map]. rewrite decodePattern_wrap.
    change (escapeRegex k :: map escapeRegex ks) with (map escapeRegex (k :: ks)).
    rewrite decodeBody_join.
    split_and!; try reflexivity.
    + apply Forall_forall. intros x Hx. apply Hspec in Hx as [Hne (k0 & _ & ->)].
      split; [exact Hne | apply trim_idem].
    + apply Forall_forall. intros x Hx. apply existsb_exists.
      exists x. split; [by apply list_elem_of_In | apply includes_refl].
Qed.

(** ** Deduplicator *)

Section Dedupe.
Implicit Types (rows pre mid : list Row) (r : Row) (k : string).

Lemma dedupe_seen pre :
  (foldl dedupeStep (∅, []) pre).1 = list_to_set (dedupKey <$> pre).
Proof.
  induction pre as [|r pre IH] using rev_ind; [reflexivity|].
  rewrite foldl_app, fmap_app, list_to_set_app_L. simpl.
  unfold dedupeStep at 1. rewrite IH.
  destruct (decide _) as [Hin|Hout]; simpl.
  - rewrite IH. apply set_eq. intros k. rewrite !elem_of_union, elem_of_singleton.
    split; [by left|]. intros [Hk| [-> | []%elem_of_empty]]; [exact Hk | exact Hin].
  - apply set_eq. intros k. rewrite !elem_of_union, elem_of_singleton.
    split; [intros [Hk|Hk]; [right; by left | by left]|].
    intros [Hk| [-> | []%elem_of_empty]]; [by right | by left].
Qed.

(** The loop, one row at a time: a row is kept exactly when no earlier row
    bears its key. *)
Lemma dedupeRows_snoc pre r :
  dedupeRows (pre ++ [r])
  = dedupeRows pre ++ (if decide (dedupKey r ∈ dedupKey <$> pre) then [] else [r]).
Proof.
  unfold dedupeRows. rewrite foldl_app. simpl.
  unfold dedupeStep at 1. rewrite dedupe_seen.
  destruct (decide (_ ∈ list_to_set _)) as [Hin|Hout];
    destruct (decide (_ ∈ dedupKey <$> pre)) as [Hin'|Hout']; simpl.
  - by rewrite app_nil_r.
  - exfalso. apply Hout'. by apply elem_of_list_to_set in Hin.
  - exfalso. apply Hout. by apply elem_of_list_to_set.
  - reflexivity.
Qed.

Lemma dedupeRows_sublist rows : dedupeRows rows `sublist_of` rows.
Proof.
  induction rows as [|r pre IH] using rev_ind; [constructor|].
  rewrite dedupeRows_snoc. apply sublist_app; [exact IH|].
  destruct (decide _); [apply sublist_nil_l | reflexivity].
Qed.

Lemma dedupeRows_keys_NoDup rows : NoDup (dedupKey <$> dedupeRows rows).
Proof.
  induction rows as [|r pre IH] using rev_ind; [constructor|].
  rewrite dedupeRows_snoc.
  destruct (decide _) as [Hin|Hout]; [by rewrite app_nil_r|].
  rewrite fmap_app. apply NoDup_app. split_and!; [exact IH | | apply NoDup_singleton].
  intros k Hk [->|[]%elem_of_nil]%elem_of_cons. apply Hout.
  apply list_elem_of_fmap in Hk as (r' & Hr' & Hin).
  apply list_elem_of_fmap. exists r'. split; [exact Hr'|].
  eapply elem_of_sublist; [exact Hin | apply dedupeRows_sublist].
Qed.

Lemma find_snoc {A} (f : A → bool) (l : list A) (x : A) :
  find f (l ++ [x])
  = match find f l with
    | Some y => Some y
    | None => if f x then Some x else None
    end.
Proof. induction l as [|a l IH]; simpl; [reflexivity|]. by destruct (f a). Qed.

Lemma firstWithKey_None k rows :
  firstWithKey k rows = None ↔ k ∉ dedupKey <$> rows.
Proof.
  unfold firstWithKey. induction rows as [|r rows IH]; simpl.
  - split; [intros _; apply not_elem_of_nil | done].
  - destruct (String.eqb (dedupKey r) k) eqn:E.
    + apply String.eqb_eq in E. subst k. split; [done|].
      intros Hn. exfalso. apply Hn. by left.
    + apply String.eqb_neq in E. rewrite IH, not_elem_of_cons.
      split; [intros Hk; split; [congruence | exact Hk] | by intros [_ Hk]].
Qed.

Lemma dedupeRows_first rows k : firstWithKey k (dedupeRows rows) = firstWithKey k rows.
Proof.
  induction rows as [|r pre IH] using rev_ind; [reflexivity|].
  rewrite dedupeRows_snoc. unfold firstWithKey in *.
  rewrite (find_snoc _ pre). destruct (decide _) as [Hin|Hout].
  - rewrite app_nil_r, IH. destruct (find _ pre) eqn:Ef; [reflexivity|].
    destruct (String.eqb (dedupKey r) k) eqn:E; [|reflexivity].
    apply String.eqb_eq in E. subst k.
    apply firstWithKey_None in Ef. contradiction.
  - by rewrite find_snoc, IH.
Qed.

End Dedupe.

(** C2.  The deduplicator emits a subsequence of its input in which no two
    rows share a dedup key (the domain when it is not empty, otherwise the
    lower-cased name and city joined by a bar); going through the input in
    order, a row is retained exactly when no earlier row bears its key, so
    for each key the retained row is the first input row bearing it; and of
    two rows with the same non-empty domain the later one is never
    retained. *)
Theorem dedupeRows_first_wins (rows : list Row) :
  dedupeRows rows `sublist_of` rows
  ∧ NoDup (dedupKey <$> dedupeRows rows)
  ∧ (∀ r, dedupKey r
          = if Js.truthy (domain r) then domain r
            else Js.toLowerCase (name r) +:+ "|" +:+ Js.toLowerCase (city r))
  ∧ (∀ pre r, dedupeRows (pre ++ [r])
              = dedupeRows pre ++ (if decide (dedupKey r ∈ dedupKey <$> pre) then [] else [r]))
  ∧ (∀ k, firstWithKey k (dedupeRows rows) = firstWithKey k rows)
  ∧ (∀ pre r1 mid r2,
       domain r1 = domain r2 → domain r1 ≠ EmptyString →
       dedupeRows (pre ++ r1 :: mid ++ [r2]) = dedupeRows (pre ++ r1 :: mid)).
Proof.
  split_and!.
  - apply dedupeRows_sublist.
  - apply dedupeRows_keys_NoDup.
  - intros r. unfold dedupKey, Js.or.
    destruct (Js.truthy (domain r)); [reflexivity|].
    by destruct (name r), (city r).
  - apply dedupeRows_snoc.
  - apply dedupeRows_first.
  - intros pre r1 mid r2 Hd Hne.
    replace (pre ++ r1 :: mid ++ [r2]) with ((pre ++ r1 :: mid) ++ [r2])
      by (by rewrite <- app_assoc).
    rewrite dedupeRows_snoc.
    destruct (decide _) as [_|Hout]; [apply app_nil_r|].
    exfalso. apply Hout. rewrite fmap_app, fmap_cons.
    apply elem_of_app. right.
    assert (Hk : dedupKey r2 = dedupKey r1).
    { unfold dedupKey, Js.or. rewrite <- Hd.
      apply truthy_true in Hne. by rewrite Hne. }
    rewrite Hk. by left.
Qed.

(** Three rows, the first and the last with the same domain. *)
Lemma dedupeRows_first_wins_witness :
  dedupeRows ([] ++ rowOf "A" "a.com" "X" :: [rowOf "B" "" "Y"] ++ [rowOf "C" "a.com" "Z"])
  = dedupeRows ([] ++ rowOf "A" "a.com" "X" :: [rowOf "B" "" "Y"]).
Proof.
  apply (dedupeRows_first_wins []); [reflexivity | discriminate].
Defined.

(** C9.  Deduplication is idempotent: the keys of its output are pairwise
    distinct, and a second pass returns the output unchanged. *)
Theorem dedupeRows_idempotent (rows : list Row) :
  NoDup (dedupKey <$> dedupeRows rows)
  ∧ dedupeRows (dedupeRows rows) = dedupeRows rows.
Proof.
  split; [apply dedupeRows_keys_NoDup|].
  pose proof (dedupeRows_keys_NoDup rows) as Hnd.
  induction (dedupeRows rows) as [|r out IH] using rev_ind; [reflexivity|].
  rewrite fmap_app in Hnd. apply NoDup_app in Hnd as (Hout & Hfresh & _).
  rewrite dedupeRows_snoc, (IH Hout).
  destruct (decide _) as [Hin|_]; [|reflexivity].
  exfalso. apply (Hfresh _ Hin). by left.
Qed.

(** ** Record Extractor *)

Section Extractor.
Context {engine : Engine}.
Implicit Types (keywords : list string) (fallbackCity : string) (el : Element) (r : Row).

Lemma rawName_nameTag el : rawName el = default EmptyString (nameTag el).
Proof.
  unfold rawName, nameTag, tag. destruct (el_tags el) as [t|]; simpl; [reflexivity|].
  by rewrite lookup_empty.
Qed.

Lemma unnamed_trim el : unnamed el = true ↔ Js.trim (rawName el) = EmptyString.
Proof.
  rewrite trim_empty_iff, rawName_nameTag. unfold unnamed.
  by destruct (nameTag el).
Qed.

Lemma or_empty_r (s : string) : Js.or s EmptyString = s.
Proof. by destruct s. Qed.

(** The fields of a produced row, read off the callback. *)
Lemma extractRow_Some keywords fallbackCity el r :
  extractRow keywords fallbackCity el = Some r →
  let tags := default ∅ (el_tags el) in
  name r = Js.trim (rawName el)
  ∧ name r ≠ EmptyString
  ∧ domain r = rootDomain (Js.or (tag tags "website") (Js.or (tag tags "contact:website") EmptyString))
  ∧ notes r = evidenceNote tags keywords
  ∧ confidence r = toFixed (if Js.truthy (domain r) then num_1_0
                            else if Js.truthy (notes r) then num_0_7 else num_0_5) 2
  ∧ source_url r = "https://www.openstreetmap.org/" +:+ osmKind el +:+ "/" +:+ ToString (el_id el).
Proof.
  unfold extractRow, rawName. rewrite or_empty_r.
  destruct (Js.truthy (Js.trim _)) eqn:Ht; simpl; [|discriminate].
  intros [= <-]. simpl. split_and!; try reflexivity.
  - by apply truthy_true.
  - unfold osmKind. destruct (el_type el) as [t|]; [|by rewrite decide_False].
    destruct (String.eqb t "node") eqn:E.
    + apply String.eqb_eq in E. subst t. by rewrite decide_True.
    + apply String.eqb_neq in E. rewrite decide_False; [reflexivity | congruence].
Qed.

Lemma extractRow_None keywords fallbackCity el :
  extractRow keywords fallbackCity el = None ↔ unnamed el = true.
Proof.
  rewrite unnamed_trim. unfold extractRow, rawName. rewrite or_empty_r.
  destruct (Js.truthy (Js.trim _)) eqn:Ht; simpl.
  - apply truthy_true in Ht. split; [discriminate | contradiction].
  - apply truthy_false in Ht. done.
Qed.

Lemma elem_of_extractRows keywords fallbackCity (els : list Element) r :
  r ∈ extractRows keywords fallbackCity els
  ↔ ∃ el, el ∈ els ∧ extractRow keywords fallbackCity el = Some r.
Proof. unfold extractRows. apply list_elem_of_omap. Qed.

(** C3.  An element whose [name] tag is absent, empty or white space only
    yields no row, and only such elements are dropped; hence every row of the
    extractor's output has a name that is non-empty and free of surrounding
    white space. *)
Theorem extractor_drops_unnamed keywords fallbackCity (els : list Element) :
  (∀ el, extractRow keywords fallbackCity el = None ↔ unnamed el = true)
  ∧ Forall (fun r => name r ≠ EmptyString ∧ Js.trim (name r) = name r)
      (extractRows keywords fallbackCity els).
Proof.
  split; [intros el; apply extractRow_None|].
  apply Forall_forall. intros r (el & _ & Hr)%elem_of_extractRows.
  apply extractRow_Some in Hr as (Hn & Hne & _).
  split; [exact Hne|]. rewrite Hn. apply trim_idem.
Qed.

Lemma toFixed_confidence :
  toFixed num_1_0 2 = "1.00" ∧ toFixed num_0_7 2 = "0.70" ∧ toFixed num_0_5 2 = "0.50".
Proof. split_and!; vm_compute; reflexivity. Qed.

Lemma join_empty_iff (sep : string) (xs : list string) :
  Forall (fun x => x ≠ EmptyString) xs → Js.join sep xs = EmptyString ↔ xs = [].
Proof.
  intros Hall. destruct xs as [|x [|y xs]]; simpl; [done| |].
  - apply Forall_cons in Hall as [Hx _]. split; [contradiction | discriminate].
  - apply Forall_cons in Hall as [Hx _]. split; [|discriminate].
    destruct x; [contradiction | discriminate].
Qed.

(** The evidence note is non-empty exactly when some non-empty keyword
    occurs, ignoring case, in the element's name tag. *)
Lemma evidenceNote_nonempty el keywords :
  evidenceNote (default ∅ (el_tags el)) keywords ≠ EmptyString
  ↔ ∃ k, k ∈ keywords ∧ k ≠ EmptyString
         ∧ Js.includes (Js.toLowerCase (rawName el)) (Js.toLowerCase k) = true.
Proof.
  unfold evidenceNote, keywordHits. fold (rawName el). rewrite or_empty_r.
  set (hits := List.filter _ _).
  assert (Hhits : ∀ h, In h hits ↔ ∃ k, k ∈ keywords ∧ k ≠ EmptyString
            ∧ h = Js.toLowerCase k
            ∧ Js.includes (Js.toLowerCase (rawName el)) (Js.toLowerCase k) = true).
  { intros h. unfold hits. rewrite filter_In, in_map_iff. split.
    - intros [(k & <- & [Hk Ht]%filter_In) Hinc].
      exists k. rewrite list_elem_of_In, <- truthy_true. done.
    - intros (k & Hk & Hne & -> & Hinc). split; [|exact Hinc].
      exists k. split; [reflexivity|]. apply filter_In.
      rewrite <- list_elem_of_In, truthy_true. done. }
  destruct hits as [|h hs].
  - split; [done|]. intros (k & Hk & Hne & Hinc).
    exfalso. apply (proj2 (Hhits (Js.toLowerCase k))). by exists k.
  - split; [intros _ | discriminate].
    destruct (proj1 (Hhits h)) as (k & Hk & Hne & _ & Hinc); [by left|].
    by exists k.
Qed.

(** C7.  The confidence of a row is "1.00" exactly when its domain is not
    empty; otherwise it is "0.70" exactly when its notes are not empty, which
    is the case exactly when some configured keyword occurs, ignoring case,
    in the element's name; otherwise it is "0.50". *)
Theorem confidence_by_evidence keywords fallbackCity el r :
  extractRow keywords fallbackCity el = Some r →
  confidence r = (if Js.truthy (domain r) then "1.00"
                  else if Js.truthy (notes r) then "0.70" else "0.50")
  ∧ (confidence r = "1.00" ↔ domain r ≠ EmptyString)
  ∧ (confidence r = "0.70" ↔ domain r = EmptyString ∧ notes r ≠ EmptyString)
  ∧ (confidence r = "0.50" ↔ domain r = EmptyString ∧ notes r = EmptyString)
  ∧ (notes r ≠ EmptyString
     ↔ ∃ k, k ∈ keywords ∧ k ≠ EmptyString
            ∧ Js.includes (Js.toLowerCase (rawName el)) (Js.toLowerCase k) = true).
Proof.
  intros Hr. apply extractRow_Some in Hr as (_ & _ & _ & Hnotes & Hconf & _).
  destruct toFixed_confidence as (H1 & H7 & H5).
  assert (Hc : confidence r = (if Js.truthy (domain r) then "1.00"
                  else if Js.truthy (notes r) then "0.70" else "0.50")).
  { rewrite Hconf.
    destruct (Js.truthy (domain r)); [exact H1|].
    destruct (Js.truthy (notes r)); [exact H7 | exact H5]. }
  clear H1 H7 H5 Hconf.
  split; [exact Hc|]. rewrite Hc. clear Hc.
  split_and!.
  - destruct (Js.truthy (domain r)) eqn:Ed.
    + apply truthy_true in Ed. done.
    + apply truthy_false in Ed. by destruct (Js.truthy (notes r)).
  - destruct (Js.truthy (domain r)) eqn:Ed.
    + apply truthy_true in Ed. split; [discriminate | by intros [? _]].
    + apply truthy_false in Ed. destruct (Js.truthy (notes r)) eqn:En.
      * apply truthy_true in En. done.
      * apply truthy_false in En. split; [discriminate | by intros [_ ?]].
  - destruct (Js.truthy (domain r)) eqn:Ed.
    + apply truthy_true in Ed. split; [discriminate | by intros [? _]].
    + apply truthy_false in Ed. destruct (Js.truthy (notes r)) eqn:En.
      * apply truthy_true in En. split; [discriminate | by intros [_ ?]].
      * apply truthy_false in En. done.
  - rewrite Hnotes. apply evidenceNote_nonempty.
Qed.

(** C10.  The link of a row names the kind "node" only when the element's
    type is the string "node"; any other type, or none, gives a "way"
    link. *)
Theorem source_url_kind keywords fallbackCity el r :
  extractRow keywords fallbackCity el = Some r →
  source_url r = "https://www.openstreetmap.org/" +:+ osmKind el +:+ "/" +:+ ToString (el_id el)
  ∧ (Js.startsWith (source_url r) "https://www.openstreetmap.org/node/" = true
     ↔ el_type el = Some "node")
  ∧ (Js.startsWith (source_url r) "https://www.openstreetmap.org/way/" = true
     ↔ el_type el ≠ Some "node").
Proof.
  intros Hr. apply extractRow_Some in Hr as (_ & _ & _ & _ & _ & Hurl).
  split; [exact Hurl|]. rewrite Hurl. unfold osmKind.
  destruct (decide (el_type el = Some "node")) as [Ht|Ht]; split; split.
  - intros _. exact Ht.
  - intros _. reflexivity.
  - intros Hs. vm_compute in Hs. discriminate Hs.
  - intros Hn. contradiction.
  - intros Hs. vm_compute in Hs. discriminate Hs.
  - intros Hn. contradiction.
  - intros _. exact Ht.
  - intros _. reflexivity.
Qed.

End Extractor.

(** ** Endpoint Client *)

Section EndpointClient.
Context {engine : Engine}.
Variable world : World.
Variable ql : string.

Lemma attemptOnce_run (ep : string) (k : nat) (s : St) :
  attemptOnce world ep k ql s
  = (attemptResult (w_fetch world (st_calls s) ep ql),
     {| st_calls := S (st_calls s);
        st_trace := st_trace s ++ [EvLog (LogAttempt ep k); EvFetch ep requestHeaders ql] |}).
Proof.
  unfold attemptOnce, bind, emit, doFetch, attemptResult, contentType. simpl.
  rewrite <- app_assoc. simpl.
  destruct (w_fetch world (st_calls s) ep ql) as [e|r]; [reflexivity|].
  destruct (res_ok r); simpl; [|reflexivity].
  destruct (Js.includes _ _); reflexivity.
Qed.

Lemma outcomeOf_cons_throw (a : Attempt) (e : JsError) (made : list Attempt)
    (lastErr : option JsError) :
  at_result a = Throw e →
  outcomeOf (a :: made) lastErr = outcomeOf made (Some e).
Proof.
  intros Ha. unfold outcomeOf. destruct made as [|b made]; simpl; [by rewrite Ha|].
  destruct (last (b :: made)) eqn:El; [reflexivity|].
  apply last_None in El. discriminate El.
Qed.

Lemma after_nil (s : St) : after ql s [] = s.
Proof. unfold after. simpl. rewrite Nat.add_0_r, app_nil_r. by destruct s. Qed.

Lemma attemptLoop_run (ep : string) (ks : list nat) (lastErr : option JsError) (s : St) :
  attemptLoop world ep ql ks lastErr s
  = (Normal (outcomeOf (attemptsFrom world ql (st_calls s) (map (pair ep) ks)) lastErr),
     after ql s (attemptsFrom world ql (st_calls s) (map (pair ep) ks))).
Proof.
  revert lastErr s. induction ks as [|k ks IH]; intros lastErr s.
  - cbn [attemptLoop map attemptsFrom]. unfold ret. by rewrite after_nil.
  - cbn [attemptLoop map attemptsFrom]. unfold bind at 1, try.
    rewrite attemptOnce_run.
    destruct (attemptResult (w_fetch world (st_calls s) ep ql)) as [json|e] eqn:Er.
    + unfold ret, after, outcomeOf, attemptEvents.
      cbn [st_calls st_trace length map concat last at_ep at_number at_result].
      by rewrite Nat.add_1_r, !app_nil_r.
    + unfold bind, emit. cbn [st_calls st_trace]. rewrite IH. cbn [st_calls].
      rewrite (outcomeOf_cons_throw _ e); [|reflexivity].
      unfold after, attemptEvents.
      cbn [st_calls st_trace length map concat at_ep at_number at_result].
      f_equal. f_equal; [lia|]. by rewrite <- !app_assoc.
Qed.

(** Whether the attempts made ended in a success does not depend on the
    error carried into them. *)
Lemma outcomeOf_inl (made : list Attempt) (le le' : option JsError) (json : Json) :
  outcomeOf made le = inl json → outcomeOf made le' = inl json.
Proof. unfold outcomeOf. destruct (last made) as [a|]; [done | discriminate]. Qed.

Lemma attemptsFrom_success (n : nat) (l1 l2 : list (string * nat)) (json : Json)
    (le : option JsError) :
  outcomeOf (attemptsFrom world ql n l1) le = inl json →
  attemptsFrom world ql n (l1 ++ l2) = attemptsFrom world ql n l1.
Proof.
  revert n le. induction l1 as [|[ep k] l1 IH]; intros n le; simpl.
  - unfold outcomeOf. simpl. discriminate.
  - destruct (attemptResult _) as [j|e] eqn:Er; [reflexivity|].
    rewrite (outcomeOf_cons_throw _ e); [|reflexivity].
    intros Ho. by rewrite (IH _ _ Ho).
Qed.

Lemma attemptsFrom_failure (n : nat) (l1 l2 : list (string * nat))
    (le le' : option JsError) :
  outcomeOf (attemptsFrom world ql n l1) le = inr le' →
  attemptsFrom world ql n (l1 ++ l2)
  = attemptsFrom world ql n l1 ++ attemptsFrom world ql (n + length (attemptsFrom world ql n l1)) l2
  ∧ ∀ made, outcomeOf (attemptsFrom world ql n l1 ++ made) le = outcomeOf made le'.
Proof.
  revert n le. induction l1 as [|[ep k] l1 IH]; intros n le; simpl.
  - unfold outcomeOf at 1. simpl. intros [= <-]. by rewrite Nat.add_0_r.
  - destruct (attemptResult _) as [j|e] eqn:Er.
    + unfold outcomeOf. simpl. discriminate.
    + rewrite (outcomeOf_cons_throw _ e); [|reflexivity].
      intros Ho. destruct (IH _ _ Ho) as [Happ Hout]. rewrite Happ. split.
      * simpl. do 3 f_equal. lia.
      * intros made. rewrite <- Hout. by apply outcomeOf_cons_throw.
Qed.

Lemma after_app (s : St) (m1 m2 : list Attempt) : after ql (after ql s m1) m2 = after ql s (m1 ++ m2).
Proof.
  unfold after. simpl. rewrite length_app, map_app, concat_app, app_assoc.
  f_equal. lia.
Qed.

Lemma endpointLoop_run (eps : list string) (lastErr : option JsError) (s : St) :
  endpointLoop world ql eps lastErr s
  = (Normal (outcomeOf (attemptsFrom world ql (st_calls s)
                          (flat_map (fun ep => map (pair ep) [1; 2; 3]) eps)) lastErr),
     after ql s (attemptsFrom world ql (st_calls s)
                (flat_map (fun ep => map (pair ep) [1; 2; 3]) eps))).
Proof.
  revert lastErr s. induction eps as [|ep eps IH]; intros lastErr s.
  - cbn [endpointLoop flat_map attemptsFrom]. unfold ret. by rewrite after_nil.
  - cbn [endpointLoop flat_map]. unfold bind at 1. rewrite attemptLoop_run.
    destruct (outcomeOf _ lastErr) as [json|le'] eqn:Ho.
    + rewrite (attemptsFrom_success _ _ _ json lastErr Ho). unfold ret. by rewrite Ho.
    + destruct (attemptsFrom_failure _ _ (flat_map (fun ep => map (pair ep) [1; 2; 3]) eps)
                  _ _ Ho) as [Happ Hout].
      rewrite Happ, Hout, IH. by rewrite after_app.
Qed.

Lemma queryOverpass_run (s : St) :
  queryOverpass world ql s
  = (resultOf (attemptsFrom world ql (st_calls s) schedule),
     after ql s (attemptsFrom world ql (st_calls s) schedule)).
Proof.
  unfold queryOverpass, bind. rewrite endpointLoop_run. fold schedule.
  unfold resultOf. by destruct (outcomeOf _ None).
Qed.

Lemma attemptsFrom_prefix (n : nat) (sched : list (string * nat)) :
  map (fun a => (at_ep a, at_number a)) (attemptsFrom world ql n sched) `prefix_of` sched.
Proof.
  revert n. induction sched as [|[ep k] sched IH]; intros n; simpl; [done|].
  apply prefix_cons. destruct (attemptResult _); [apply prefix_nil | apply IH].
Qed.

Lemma attemptsFrom_lookup (n : nat) (sched : list (string * nat)) (i : nat) (a : Attempt) :
  attemptsFrom world ql n sched !! i = Some a →
  at_result a = attemptResult (w_fetch world (n + i) (at_ep a) ql)
  ∧ (∀ json, at_result a = Normal json → S i = length (attemptsFrom world ql n sched)).
Proof.
  revert n i. induction sched as [|[ep k] sched IH]; intros n i; simpl; [done|].
  destruct i as [|i]; simpl.
  - intros [= <-]. simpl. rewrite Nat.add_0_r. split; [reflexivity|].
    intros json ->. reflexivity.
  - destruct (attemptResult (w_fetch world n ep ql)); [done|].
    intros Ha. destruct (IH _ _ Ha) as [Hr Hlast]. split.
    + rewrite Hr. by rewrite Nat.add_succ_comm.
    + intros json Hj. by rewrite (Hlast json Hj).
Qed.

Lemma attemptsFrom_all_failed (n : nat) (sched : list (string * nat)) (a : Attempt)
    (e : JsError) :
  last (attemptsFrom world ql n sched) = Some a → at_result a = Throw e →
  length (attemptsFrom world ql n sched) = length sched.
Proof.
  revert n. induction sched as [|[ep k] sched IH]; intros n; simpl; [done|].
  destruct (attemptResult (w_fetch world n ep ql)) as [j|e'] eqn:Er.
  - simpl. intros [= <-]. simpl. discriminate.
  - destruct (attemptsFrom world ql (S n) sched) as [|b made] eqn:Em.
    + destruct sched as [|[ep' k'] sched]; [reflexivity | discriminate Em].
    + intros Hl Ha. pose proof (IH (S n)) as IH'. rewrite Em in IH'.
      cbn [length]. f_equal. apply IH'; [exact Hl | exact Ha].
Qed.

Lemma attemptResult_success (o : FetchOutcome) (json : Json) :
  attemptResult o = Normal json
  ↔ ∃ r, o = FetchResolves r ∧ res_ok r = true
         ∧ Js.includes (contentType r) "application/json" = true
         ∧ res_json r = Normal json.
Proof.
  unfold attemptResult. split.
  - destruct o as [e|r]; [discriminate|].
    destruct (res_ok r) eqn:Eok; simpl; [|discriminate].
    destruct (Js.includes _ _) eqn:Ect; simpl; [|discriminate].
    intros Hj. by exists r.
  - intros (r & -> & -> & Hct & Hj). simpl. by rewrite Hct.
Qed.

(** C5.  The client follows the schedule: the endpoints in list order, for
    each of them the attempts numbered 1, 2 and 3.  Every attempt posts the
    query once; a failed attempt is followed by a pause of 700 ms times its
    number.  An attempt succeeds only if [fetch] resolves, the response is
    [ok], its content type contains [application/json] and the body parses.
    No attempt follows a successful one, whose json is the result; when all
    nine attempts fail, the call throws the error of the last one. *)
Theorem endpoint_client (s : St) :
  let made := attemptsFrom world ql (st_calls s) schedule in
  schedule
  = [("https://overpass-api.de/api/interpreter", 1);
     ("https://overpass-api.de/api/interpreter", 2);
     ("https://overpass-api.de/api/interpreter", 3);
     ("https://overpass.kumi.systems/api/interpreter", 1);
     ("https://overpass.kumi.systems/api/interpreter", 2);
     ("https://overpass.kumi.systems/api/interpreter", 3);
     ("https://overpass.openstreetmap.ru/api/interpreter", 1);
     ("https://overpass.openstreetmap.ru/api/interpreter", 2);
     ("https://overpass.openstreetmap.ru/api/interpreter", 3)]
  ∧ queryOverpass world ql s
    = (resultOf made,
       {| st_calls := st_calls s + length made;
          st_trace := st_trace s ++ concat (map (attemptEvents ql) made) |})
  ∧ map (fun a => (at_ep a, at_number a)) made `prefix_of` schedule
  ∧ Forall (fun a =>
       attemptEvents ql a
       = [EvLog (LogAttempt (at_ep a) (at_number a)); EvFetch (at_ep a) requestHeaders ql] ++
         match at_result a with
         | Normal _ => []
         | Throw e => [EvLog (LogFailed (at_ep a) (at_number a) (message e));
                       EvSleep (700 * at_number a)]
         end) made
  ∧ (∀ i a, made !! i = Some a →
       at_result a = attemptResult (w_fetch world (st_calls s + i) (at_ep a) ql)
       ∧ ∀ json, at_result a = Normal json →
           (∃ r, w_fetch world (st_calls s + i) (at_ep a) ql = FetchResolves r
                 ∧ res_ok r = true
                 ∧ Js.includes (contentType r) "application/json" = true
                 ∧ res_json r = Normal json)
           ∧ S i = length made)
  ∧ match last made with
    | Some a =>
        match at_result a with
        | Normal json => resultOf made = Normal json
        | Throw e => length made = 9 ∧ resultOf made = Throw e
        end
    | None => False
    end.
Proof.
  intros made. split_and!.
  - reflexivity.
  - apply queryOverpass_run.
  - apply attemptsFrom_prefix.
  - apply Forall_forall. intros a _. reflexivity.
  - intros i a Ha. destruct (attemptsFrom_lookup _ _ _ _ Ha) as [Hr Hlast].
    split; [exact Hr|]. intros json Hj. split; [|by apply (Hlast json)].
    apply attemptResult_success. by rewrite <- Hr.
  - unfold resultOf, outcomeOf.
    destruct (last made) as [a|] eqn:El.
    + destruct (at_result a) as [json|e] eqn:Ea; [reflexivity|].
      split; [|reflexivity]. unfold made in *.
      rewrite (attemptsFrom_all_failed _ _ _ _ El Ea). reflexivity.
    + apply last_None in El. subst made. unfold schedule in El.
      simpl in El. discriminate El.
Qed.

End EndpointClient.

(** ** Input Normalizer *)

Section Normalizer.
Context {engine : Engine}.

Lemma toNum_spec (v : JsVal) (def : JsNumber) :
  toNum v def = if isFinite (ToNumber v) then ToNumber v else def.
Proof. reflexivity. Qed.

(** A missing flat field, and text that converts to NaN, give the default. *)
Lemma toNum_default (v : JsVal) (def : JsNumber) :
  isFinite (ToNumber v) = false → toNum v def = def.
Proof. unfold toNum. by intros ->. Qed.

Lemma toNum_undefined (def : JsNumber) : toNum VUndefined def = def.
Proof. reflexivity. Qed.

Lemma toNum_finite (v : JsVal) (def : JsNumber) (q : Q) :
  ToNumber v = Fin q → toNum v def = Fin q.
Proof. unfold toNum. by intros ->. Qed.

(** The nested box is taken as it is; otherwise the four flat fields are
    read through [toNum] with their defaults. *)
Lemma resolveBBox_spec (input : Input) :
  resolveBBox input
  = match in_bbox input with
    | Some b => b
    | None =>
        {| south := VNum (toNum (in_bbox_south input) num_29_10);
           west := VNum (toNum (in_bbox_west input) num_m98_85);
           north := VNum (toNum (in_bbox_north input) num_29_75);
           east := VNum (toNum (in_bbox_east input) num_m98_10) |}
    end.
Proof. reflexivity. Qed.

Lemma resolveBBox_empty : resolveBBox emptyInput = defaultBBox.
Proof. reflexivity. Qed.

(** Normalization throws exactly when a coordinate of the resolved box is
    not within its range, and then with the invalid-box error. *)
Lemma normalizeInput_spec (input : Input) :
  normalizeInput input
  = if bboxOk (resolveBBox input)
    then Normal {| cfg_bbox := resolveBBox input;
                   cfg_keywords := resolveKeywords input;
                   cfg_city := resolveCity input |}
    else Throw (newError "Invalid bbox coordinates").
Proof. unfold normalizeInput. by destruct (bboxOk _). Qed.

Lemma normalizeInput_throws_iff (input : Input) :
  (∃ e, normalizeInput input = Throw e)
  ↔ within (-90) 90 (south (resolveBBox input)) = false
    ∨ within (-90) 90 (north (resolveBBox input)) = false
    ∨ within (-180) 180 (west (resolveBBox input)) = false
    ∨ within (-180) 180 (east (resolveBBox input)) = false.
Proof.
  rewrite normalizeInput_spec. unfold bboxOk. split.
  - intros [e He].
    destruct (within (-90) 90 (south _)); [|by left].
    destruct (within (-90) 90 (north _)); [|by right; left].
    destruct (within (-180) 180 (west _)); [|by right; right; left].
    destruct (within (-180) 180 (east _)); [|by right; right; right].
    discriminate He.
  - intros Hor. exists (newError "Invalid bbox coordinates").
    destruct Hor as [-> | [-> | [-> | ->]]]; rewrite ?andb_false_r; reflexivity.
Qed.

(** C4, evaluated where the code departs from it: a flat field holding
    [null] is converted to 0 by [Number] and kept, so the box of
    [{ bbox_south: null }] starts at latitude 0 and not at the default
    29.10, and normalization accepts it.  The first version in [main.js],
    which reads [Number(v ?? default)], gives the default on the same
    input. *)
Theorem normalizeInput_null_field :
  toNum VNull num_29_10 = Fin 0
  ∧ normalizeInput (inputWithSouth VNull)
    = Normal {| cfg_bbox := {| south := VNum (Fin 0); west := VNum num_m98_85;
                               north := VNum num_29_75; east := VNum num_m98_10 |};
                cfg_keywords := defaultKws;
                cfg_city := "San Antonio" |}
  ∧ normalizeInput (inputWithSouth VUndefined)
    = Normal {| cfg_bbox := defaultBBox; cfg_keywords := defaultKws;
                cfg_city := "San Antonio" |}
  ∧ Legacy.resolveBBox (inputWithSouth VNull) = defaultBBox.
Proof. split_and!; reflexivity. Qed.

End Normalizer.

(** A blank flat field behaves like [null]: with the reference engine,
    [Number('')] is 0. *)
Example normalizeInput_blank_field :
  cfg_bbox <$> (match normalizeInput (inputWithSouth (VStr "")) with
                | Normal cfg => Some cfg
                | Throw _ => None
                end)
  = Some {| south := VNum (Fin 0); west := VNum num_m98_85;
            north := VNum num_29_75; east := VNum num_m98_10 |}.
Proof. vm_compute. reflexivity. Qed.

Example normalizeInput_text_field :
  toNum (VStr "abc") num_29_10 = num_29_10
  ∧ toNum (VStr "29.5") num_29_10 = Fin (59 # 2)
  ∧ toNum (VNum (Fin (59 # 2))) num_29_10 = Fin (59 # 2).
Proof. split_and!; vm_compute; reflexivity. Qed.

(** ** Run Driver *)

Section RunDriver.
Context {engine : Engine}.
Variable world : World.

Lemma attemptEvents_no_push (ql : string) (made : list Attempt) :
  Forall (fun ev => isPushData ev = false) (concat (map (attemptEvents ql) made)).
Proof.
  induction made as [|a made IH]; cbn [map concat]; [constructor|].
  apply Forall_app. split; [|exact IH].
  unfold attemptEvents. destruct (at_result a); repeat constructor.
Qed.

Lemma run_spec : run world = (Normal tt, runTrace world).
Proof.
  unfold run, runTrace, main, pipeline.
  unfold bind at 1, try. unfold bind at 1, lift.
  destruct (normalizeInput _) as [cfg|e].
  - unfold bind at 1. rewrite queryOverpass_run.
    destruct (resultOf _) as [json|e].
    + unfold bind, emit, ret, after, initSt. cbn [st_trace st_calls app].
      by rewrite <- app_assoc.
    + unfold bind, emit, ret, after, initSt, errorEvents. cbn [st_trace st_calls app].
      by rewrite <- app_assoc.
  - reflexivity.
Qed.

(** C6.  A run never ends with an error.  When normalization throws, the
    run only logs the error and writes the error record: no request is sent
    and no dataset is written.  When every delivery attempt fails, the run
    consists of the attempts followed by the error record, again without a
    dataset write.  Otherwise the attempts are followed by the write of the
    deduplicated rows and then by the run summary, whose [found] is the
    number of extracted rows and whose [deduped] is the number of rows
    written. *)
Theorem run_driver :
  let input := default emptyInput (w_input world) in
  match normalizeInput input with
  | Throw e =>
      run world = (Normal tt, errorEvents e)
      ∧ Forall (fun ev => isFetch ev = false ∧ isPushData ev = false) (run world).2
  | Normal cfg =>
      let ql := overpassQL 6 (buildRegex (cfg_keywords cfg)) (cfg_bbox cfg) in
      let made := attemptsFrom world ql 0 schedule in
      let delivery := concat (map (attemptEvents ql) made) in
      match resultOf made with
      | Throw e =>
          run world = (Normal tt, delivery ++ errorEvents e)
          ∧ Forall (fun ev => isPushData ev = false) (run world).2
      | Normal json =>
          let rows := extractRows (cfg_keywords cfg) (cfg_city cfg) (elementsOf json) in
          run world
          = (Normal tt,
             delivery ++
             [EvPushData (dedupeRows rows);
              EvSetValue "RUN-SUMMARY" (SummaryValue
                {| found := length rows; deduped := length (dedupeRows rows);
                   sum_bbox := cfg_bbox cfg; sum_keywords := cfg_keywords cfg;
                   sum_city := cfg_city cfg; hint := hintText |})])
      end
  end.
Proof.
  intros input. rewrite run_spec. unfold runTrace. fold input.
  destruct (normalizeInput input) as [cfg|e].
  - cbn zeta. destruct (resultOf _) as [json|e]; [reflexivity|].
    split; [reflexivity|]. cbn [snd].
    apply Forall_app. split; [apply attemptEvents_no_push | repeat constructor].
  - split; [reflexivity | repeat constructor].
Qed.

End RunDriver.

(** ** Root domain *)

Section RootDomain.
Context {engine : Engine}.

Lemma rootDomain_empty : rootDomain EmptyString = EmptyString.
Proof. reflexivity. Qed.

(** What the function computes on a non-empty argument: the prefix is added
    exactly when the text does not start with the four characters [http]. *)
Lemma rootDomain_spec (url : string) :
  url ≠ EmptyString →
  rootDomain url
  = match URLHostname (if Js.startsWith url "http" then url else "http://" +:+ url) with
    | Some hostname => stripWww (Js.toLowerCase hostname)
    | None => EmptyString
    end.
Proof. intros Hne%truthy_true. unfold rootDomain. by rewrite Hne. Qed.

(** The program's test and the presence of a scheme give the same result
    whenever they agree on the argument. *)
Lemma rootDomain_agrees (url : string) :
  hasScheme url = Js.startsWith url "http" → rootDomain url = rootDomainByScheme url.
Proof. intros Hs. unfold rootDomain, rootDomainByScheme. by rewrite Hs. Qed.

(** An element without [website] and [contact:website] tags gets an empty
    domain. *)
Lemma domain_without_website (keywords : list string) (fallbackCity : string)
    (el : Element) (r : Row) :
  extractRow keywords fallbackCity el = Some r →
  tag (default ∅ (el_tags el)) "website" = EmptyString →
  tag (default ∅ (el_tags el)) "contact:website" = EmptyString →
  domain r = EmptyString.
Proof.
  intros Hr Hw Hc. apply extractRow_Some in Hr as (_ & _ & Hd & _).
  rewrite Hd. cbn zeta. by rewrite Hw, Hc.
Qed.

(** C8, evaluated where the code departs from it.  The text [httpbin.org]
    names no scheme, but it starts with [http], so the program parses it
    without the prefix; the URL parser rejects a text without a scheme, and
    the result is empty, where prefixing would have given the host. *)
Theorem rootDomain_schemeless_http :
  URLHostname "httpbin.org" = None →
  URLHostname "http://httpbin.org" = Some "httpbin.org" →
  hasScheme "httpbin.org" = false
  ∧ rootDomain "httpbin.org" = EmptyString
  ∧ rootDomainByScheme "httpbin.org" = "httpbin.org".
Proof.
  intros Hbare Hfull. split_and!.
  - reflexivity.
  - unfold rootDomain. cbn [Js.truthy negb Js.startsWith Ascii.eqb Bool.eqb andb].
    by rewrite Hbare.
  - unfold rootDomainByScheme.
    change (hasScheme "httpbin.org") with false.
    cbn [Js.truthy negb]. change ("http://" +:+ "httpbin.org") with "http://httpbin.org".
    rewrite Hfull. reflexivity.
Qed.

End RootDomain.

(** The reference URL parser behaves as assumed on both texts. *)
Lemma rootDomain_schemeless_http_witness :
  hasScheme "httpbin.org" = false
  ∧ rootDomain "httpbin.org" = EmptyString
  ∧ rootDomainByScheme "httpbin.org" = "httpbin.org".
Proof. apply (rootDomain_schemeless_http (engine := refEngine)); reflexivity. Defined.

(** The examples of the specification, with the reference engine. *)
Example rootDomain_examples :
  rootDomain "https://www.example.com/page" = "example.com"
  ∧ rootDomain "not a url" = EmptyString
  ∧ rootDomain EmptyString = EmptyString
  ∧ rootDomain "glow.com" = "glow.com".
Proof. split_and!; vm_compute; reflexivity. Qed.

(** A scheme written in capitals is not recognised by the program's test:
    the prefix is added in front of it and the host read is [http]. *)
Example rootDomain_capital_scheme :
  hasScheme "Http://www.example.com" = true
  ∧ rootDomain "Http://www.example.com" = "http"
  ∧ rootDomainByScheme "Http://www.example.com" = "example.com".
Proof. split_and!; vm_compute; reflexivity. Qed.

(** ** Examples *)

(** The two extraction examples of the specification. *)
Example extract_luxe : extractRow ["aesthetic"] "San Antonio" luxe = Some luxeRow.
Proof. vm_compute. reflexivity. Qed.

Example extract_glow : extractRow ["aesthetic"] "San Antonio" glow = Some glowRow.
Proof. vm_compute. reflexivity. Qed.

(** The row of a place known by a keyword only. *)
Lemma confidence_by_evidence_witness :
  confidence luxeRow = "0.70" ↔ domain luxeRow = EmptyString ∧ notes luxeRow ≠ EmptyString.
Proof.
  apply (confidence_by_evidence ["aesthetic"] "San Antonio" luxe luxeRow).
  vm_compute. reflexivity.
Defined.

(** The row of a node. *)
Lemma source_url_kind_witness :
  Js.startsWith (source_url glowRow) "https://www.openstreetmap.org/node/" = true
  ↔ el_type glow = Some "node".
Proof.
  apply (source_url_kind ["aesthetic"] "San Antonio" glow glowRow).
  vm_compute. reflexivity.
Defined.

(** The fifth attempt of a run whose first four requests are refused. *)
Lemma endpoint_client_witness :
  at_result fifthAttempt
  = attemptResult (w_fetch demoWorld (st_calls initSt + 4) (at_ep fifthAttempt) demoQL)
  ∧ ∀ json, at_result fifthAttempt = Normal json →
      (∃ r, w_fetch demoWorld (st_calls initSt + 4) (at_ep fifthAttempt) demoQL
            = FetchResolves r
            ∧ res_ok r = true
            ∧ Js.includes (contentType r) "application/json" = true
            ∧ res_json r = Normal json)
      ∧ 5 = length (attemptsFrom demoWorld demoQL (st_calls initSt) schedule).
Proof.
  destruct (endpoint_client demoWorld demoQL initSt) as (_ & _ & _ & _ & Hmade & _).
  apply (Hmade 4 fifthAttempt). vm_compute. reflexivity.
Defined.

(** Two elements that share a domain end up as one row; the summary counts
    two rows found and one kept. *)
Example run_demo :
  (run demoWorld).1 = Normal tt
  ∧ List.filter isStore (run demoWorld).2
    = [EvPushData [alphaRow];
       EvSetValue "RUN-SUMMARY" (SummaryValue
         {| found := 2; deduped := 1; sum_bbox := defaultBBox;
            sum_keywords := defaultKws; sum_city := "San Antonio";
            hint := hintText |})]
  ∧ length (List.filter isFetch (run demoWorld).2) = 5.
Proof. split_and!; vm_compute; reflexivity. Qed.

(** All nine attempts failing: the error record of the last failure is
    written, and no dataset. *)
Example run_dead :
  (run deadWorld).1 = Normal tt
  ∧ List.filter isStore (run deadWorld).2
    = [EvSetValue "ERROR" (ErrorValue "HTTP 504" "Error: HTTP 504")]
  ∧ length (List.filter isFetch (run deadWorld).2) = 9.
Proof. split_and!; vm_compute; reflexivity. Qed.

(** A latitude out of range: the run writes the error record and sends no
    request. *)
Example run_bad_box :
  run badBoxWorld
  = (Normal tt,
     [EvLog (LogFatal "Invalid bbox coordinates");
      EvSetValue "ERROR"
        (ErrorValue "Invalid bbox coordinates" "Error: Invalid bbox coordinates")]).
Proof. vm_compute. reflexivity. Qed.

(** ** The simpler versions *)

Section LegacyFacts.
Context {engine : Engine}.

(** On a list of keywords that is already clean and not empty, the simplest
    [buildRegex] builds the same pattern as the resilient one. *)
Lemma legacy_buildRegex_agrees (keywords : list string) :
  cleanKeywords keywords = keywords → keywords ≠ [] →
  Legacy.buildRegex keywords = buildRegex keywords.
Proof.
  intros Hclean Hne. unfold Legacy.buildRegex, buildRegex. rewrite Hclean.
  destruct keywords as [|k ks]; [contradiction | reflexivity].
Qed.

(** The first version reads a flat field with [Number(v ?? default)]: a
    missing or null field gives the default, anything else is converted,
    text that is not a number to NaN. *)
Lemma legacy_numberOr (def : JsNumber) (s : string) :
  Legacy.numberOr VUndefined def = def
  ∧ Legacy.numberOr VNull def = def
  ∧ Legacy.numberOr (VStr s) def = StringToNumber s.
Proof. split_and!; reflexivity. Qed.

End LegacyFacts.

(** Without cleaning, an empty list gives an empty group and white space
    stays in the pattern. *)
Example legacy_buildRegex_differs :
  Legacy.buildRegex [] = "(?i)()"
  ∧ Legacy.buildRegex [" a "] = "(?i)( a )"
  ∧ buildRegex [" a "] = "(?i)(a)".
Proof. split_and!; reflexivity. Qed.

(** The first version has no [catch]: when every endpoint fails, the error
    leaves [Actor.main], after one request per endpoint, and nothing is
    stored. *)
Example legacy_run_dead :
  (Legacy.run deadWorld).1 = Throw (newError "Overpass HTTP 504")
  ∧ List.filter isStore (Legacy.run deadWorld).2 = []
  ∧ length (List.filter isFetch (Legacy.run deadWorld).2) = 3.
Proof. split_and!; vm_compute; reflexivity. Qed.

(** The same input in the first version: the request is sent. *)
Example legacy_run_bad_box :
  (Legacy.run badBoxWorld).1 = Normal tt
  ∧ length (List.filter isFetch (Legacy.run badBoxWorld).2) = 1.
Proof. split_and!; vm_compute; reflexivity. Qed.

(** * Further properties of the code *)

(** ** Case conversion *)

Lemma lowerChar_idem (c : ascii) : Js.lowerChar (Js.lowerChar c) = Js.lowerChar c.
Proof. destruct c as [[] [] [] [] [] [] [] []]; reflexivity. Qed.

Lemma toLowerCase_idem (s : string) :
  Js.toLowerCase (Js.toLowerCase s) = Js.toLowerCase s.
Proof.
  induction s as [|c s IH]; [reflexivity|].
  cbn [Js.toLowerCase]. by rewrite lowerChar_idem, IH.
Qed.

Lemma toLowerCase_slice (n : nat) (s : string) :
  Js.toLowerCase (Js.slice n s) = Js.slice n (Js.toLowerCase s).
Proof.
  revert s. induction n as [|n IH]; intros s; [by destruct s|].
  destruct s as [|c s]; [reflexivity|]. cbn [Js.slice Js.toLowerCase]. apply IH.
Qed.

Lemma truthy_toLowerCase (s : string) : Js.truthy (Js.toLowerCase s) = Js.truthy s.
Proof. by destruct s. Qed.

Lemma includes_empty (s : string) : Js.includes s EmptyString = true.
Proof. by destruct s. Qed.

(** ** Category and city *)

Section CategoryCity.
Implicit Types (tags : Tags).

Lemma or_empty_iff (a b : string) :
  Js.or a b = EmptyString ↔ a = EmptyString ∧ b = EmptyString.
Proof. destruct a; simpl; [tauto | split; [discriminate | by intros [? _]]]. Qed.

(** X1.  The category is empty exactly when the element has none of the
    tags [amenity], [leisure] and [shop] (or only empty ones).  Unless one of
    the three special values decides, the category is the value of the first
    of [amenity], [leisure] and [shop] that is not empty, whatever that value
    is. *)
Theorem categoryFromTags_empty_iff tags :
  (categoryFromTags tags = EmptyString
   ↔ tag tags "amenity" = EmptyString ∧ tag tags "leisure" = EmptyString
     ∧ tag tags "shop" = EmptyString)
  ∧ (tag tags "leisure" ≠ "spa" → tag tags "amenity" ≠ "clinic" →
     tag tags "shop" ≠ "beauty" →
     categoryFromTags tags
     = if String.eqb (tag tags "amenity") EmptyString
       then if String.eqb (tag tags "leisure") EmptyString
            then tag tags "shop" else tag tags "leisure"
       else tag tags "amenity").
Proof.
  split.
  - unfold categoryFromTags.
    destruct (String.eqb (tag tags "leisure") "spa") eqn:El.
    { apply String.eqb_eq in El. rewrite El. split; [discriminate|]. by intros (_ & ? & _). }
    destruct (String.eqb (tag tags "amenity") "clinic") eqn:Ea.
    { apply String.eqb_eq in Ea. rewrite Ea. split; [discriminate|]. by intros (? & _). }
    destruct (String.eqb (tag tags "shop") "beauty") eqn:Es.
    { apply String.eqb_eq in Es. rewrite Es. split; [discriminate|]. by intros (_ & _ & ?). }
    rewrite !or_empty_iff. tauto.
  - intros Hl%String.eqb_neq Ha%String.eqb_neq Hs%String.eqb_neq.
    unfold categoryFromTags. rewrite Hl, Ha, Hs. unfold Js.or.
    destruct (tag tags "amenity") as [|c1 a]; [|reflexivity].
    destruct (tag tags "leisure") as [|c2 l]; [|reflexivity].
    by destruct (tag tags "shop").
Qed.

(** X2.  For an element that matches one of the clauses of the query
    ([leisure=spa], [amenity=clinic] or [shop=beauty]) the category is one of
    "spa", "clinic" and "beauty", "spa" taking precedence over "clinic" and
    "clinic" over "beauty". *)
Theorem categoryFromTags_matching tags :
  tag tags "leisure" = "spa" ∨ tag tags "amenity" = "clinic" ∨ tag tags "shop" = "beauty" →
  categoryFromTags tags ∈ ["spa"; "clinic"; "beauty"]
  ∧ (categoryFromTags tags = "spa" ↔ tag tags "leisure" = "spa")
  ∧ (categoryFromTags tags = "clinic"
     ↔ tag tags "leisure" ≠ "spa" ∧ tag tags "amenity" = "clinic")
  ∧ (categoryFromTags tags = "beauty"
     ↔ tag tags "leisure" ≠ "spa" ∧ tag tags "amenity" ≠ "clinic").
Proof.
  intros Hmatch. unfold categoryFromTags.
  destruct (String.eqb (tag tags "leisure") "spa") eqn:El.
  { apply String.eqb_eq in El. split_and!; [by left | done | |];
      (split; [discriminate | by intros [? _]]). }
  apply String.eqb_neq in El.
  destruct (String.eqb (tag tags "amenity") "clinic") eqn:Ea.
  { apply String.eqb_eq in Ea. split_and!; [by right; left | | done |].
    - split; [discriminate | done].
    - split; [discriminate | by intros [_ ?]]. }
  apply String.eqb_neq in Ea.
  destruct (String.eqb (tag tags "shop") "beauty") eqn:Es.
  { split_and!; [by right; right; left | | | done].
    - split; [discriminate | done].
    - split; [discriminate | by intros [_ ?]]. }
  apply String.eqb_neq in Es. exfalso. tauto.
Qed.

Lemma cityFromTags_nonempty tags (fallbackCity : string) :
  fallbackCity ≠ EmptyString → cityFromTags tags fallbackCity ≠ EmptyString.
Proof. unfold cityFromTags. rewrite !or_empty_iff. tauto. Qed.

Lemma resolveCity_nonempty (input : Input) : resolveCity input ≠ EmptyString.
Proof. unfold resolveCity. rewrite or_empty_iff. by intros [_ ?]. Qed.

End CategoryCity.

(** A value that no clause of the query asks for. *)
Lemma categoryFromTags_empty_iff_witness :
  categoryFromTags {[ "amenity" := "doctors" ]} = "doctors".
Proof.
  change "doctors" with
    (if String.eqb (tag {[ "amenity" := "doctors" ]} "amenity") EmptyString
     then if String.eqb (tag {[ "amenity" := "doctors" ]} "leisure") EmptyString
          then tag {[ "amenity" := "doctors" ]} "shop"
          else tag {[ "amenity" := "doctors" ]} "leisure"
     else tag {[ "amenity" := "doctors" ]} "amenity") at 2.
  apply (categoryFromTags_empty_iff {[ "amenity" := "doctors" ]}); vm_compute; discriminate.
Defined.

(** A spa that is also tagged as a clinic. *)
Lemma categoryFromTags_matching_witness :
  categoryFromTags {[ "amenity" := "clinic"; "leisure" := "spa" ]} = "spa"
  ↔ tag {[ "amenity" := "clinic"; "leisure" := "spa" ]} "leisure" = "spa".
Proof.
  apply (categoryFromTags_matching {[ "amenity" := "clinic"; "leisure" := "spa" ]}).
  left. reflexivity.
Defined.

(** ** Domains and evidence *)

Section DomainEvidence.
Context {engine : Engine}.
Implicit Types (tags : Tags) (keywords : list string).

(** X3.  A root domain is always in lower case, whatever the URL parser
    returns: converting it again changes nothing. *)
Theorem rootDomain_lowercase (url : string) :
  Js.toLowerCase (rootDomain url) = rootDomain url.
Proof.
  unfold rootDomain. destruct (negb (Js.truthy url)); [reflexivity|].
  destruct (URLHostname _) as [hostname|]; [|reflexivity]. cbn zeta.
  destruct (Js.startsWith _ "www.").
  - by rewrite toLowerCase_slice, toLowerCase_idem.
  - apply toLowerCase_idem.
Qed.

Lemma filter_truthy_lower keywords :
  map Js.toLowerCase (List.filter Js.truthy (map Js.toLowerCase keywords))
  = map Js.toLowerCase (List.filter Js.truthy keywords).
Proof.
  induction keywords as [|k ks IH]; [reflexivity|].
  cbn [map List.filter]. rewrite truthy_toLowerCase.
  destruct (Js.truthy k); cbn [map]; [by rewrite toLowerCase_idem, IH | exact IH].
Qed.

Lemma tag_insert_name tags (v : string) : tag (<["name" := v]> tags) "name" = v.
Proof. unfold tag. by rewrite lookup_insert_eq. Qed.

(** X4.  The evidence note ignores letter case on both sides: lower-casing
    the keywords, or the name tag, gives the same note.  A note is either
    empty or starts with [name_keywords=]. *)
Theorem evidenceNote_ignores_case tags keywords :
  evidenceNote tags (map Js.toLowerCase keywords) = evidenceNote tags keywords
  ∧ evidenceNote (<["name" := Js.toLowerCase (tag tags "name")]> tags) keywords
    = evidenceNote tags keywords
  ∧ (evidenceNote tags keywords = EmptyString
     ∨ Js.startsWith (evidenceNote tags keywords) "name_keywords=" = true).
Proof.
  unfold evidenceNote, keywordHits. split_and!.
  - by rewrite filter_truthy_lower.
  - by rewrite tag_insert_name, !or_empty_r, toLowerCase_idem.
  - destruct (List.filter _ _); [by left | by right].
Qed.

Lemma legacy_hits_clean (n : string) keywords :
  Forall (fun k => k ≠ EmptyString ∧ Js.toLowerCase k = k) keywords →
  List.filter (fun k => Js.includes n (Js.toLowerCase k)) keywords
  = List.filter (fun k => Js.includes n k)
      (map Js.toLowerCase (List.filter Js.truthy keywords)).
Proof.
  induction 1 as [|k ks [Hne Hlow] _ IH]; [reflexivity|].
  cbn [List.filter map]. apply truthy_true in Hne. rewrite Hne.
  cbn [List.filter map]. rewrite Hlow, IH. reflexivity.
Qed.

(** X5.  In the version of the unnamed file the note lists, after
    [name_keywords=] and separated by commas, the keywords that occur in the
    name when both are lower-cased, in their order and as they are written:
    they are not lower-cased in the note, and empty keywords are not dropped.
    So the note is non-empty exactly when some keyword, in lower case, occurs
    in the lower-cased name, and an empty keyword marks every element.  A
    single keyword that occurs is reported as written, where the resilient
    version reports it in lower case; on keywords that are non-empty and
    already in lower case the two versions give the same note. *)
Theorem legacy_evidenceNote tags keywords :
  let occurs k := Js.includes (Js.toLowerCase (tag tags "name")) (Js.toLowerCase k) in
  Legacy.evidenceNote tags keywords
  = match List.filter occurs keywords with
    | [] => EmptyString
    | hits => "name_keywords=" +:+ Js.join "," hits
    end
  ∧ (∀ k, occurs k = true → Legacy.evidenceNote tags [k] = "name_keywords=" +:+ k)
  ∧ (∀ k, k ≠ EmptyString → occurs k = true →
       evidenceNote tags [k] = "name_keywords=" +:+ Js.toLowerCase k)
  ∧ (Legacy.evidenceNote tags keywords ≠ EmptyString
     ↔ ∃ k, k ∈ keywords ∧ occurs k = true)
  ∧ (EmptyString ∈ keywords → Legacy.evidenceNote tags keywords ≠ EmptyString)
  ∧ (Forall (fun k => k ≠ EmptyString ∧ Js.toLowerCase k = k) keywords →
     Legacy.evidenceNote tags keywords = evidenceNote tags keywords).
Proof.
  intros occurs.
  assert (Heq : ∀ kws, Legacy.evidenceNote tags kws
    = match List.filter occurs kws with
      | [] => EmptyString
      | hits => "name_keywords=" +:+ Js.join "," hits
      end).
  { intros kws. unfold Legacy.evidenceNote, occurs. rewrite or_empty_r.
    by destruct (List.filter _ kws). }
  assert (Hiff : Legacy.evidenceNote tags keywords ≠ EmptyString
    ↔ ∃ k, k ∈ keywords ∧ occurs k = true).
  { rewrite Heq.
    destruct (List.filter occurs keywords) as [|h hs] eqn:Eh.
    - split; [done|]. intros (k & Hk & Hinc). exfalso.
      assert (Hin : In k []); [|destruct Hin].
      rewrite <- Eh. apply filter_In. by rewrite <- list_elem_of_In.
    - split; [intros _ | discriminate].
      assert (Hin : In h (h :: hs)) by (by left).
      rewrite <- Eh in Hin. apply filter_In in Hin as [Hin Hinc].
      exists h. by rewrite list_elem_of_In. }
  split_and!.
  - apply Heq.
  - intros k Hk. rewrite Heq. cbn [List.filter]. rewrite Hk. reflexivity.
  - intros k Hne%truthy_true Hk. unfold evidenceNote, keywordHits.
    cbn [List.filter]. rewrite Hne. cbn [map List.filter].
    rewrite or_empty_r. fold (occurs k). rewrite Hk. reflexivity.
  - exact Hiff.
  - intros Hin. apply Hiff. exists EmptyString. split; [exact Hin|].
    apply includes_empty.
  - intros Hclean. unfold Legacy.evidenceNote, evidenceNote, keywordHits.
    by rewrite (legacy_hits_clean _ _ Hclean).
Qed.

End DomainEvidence.

(** A keyword list that holds an empty keyword. *)
Lemma legacy_evidenceNote_witness :
  Legacy.evidenceNote {[ "name" := "Corner Bakery" ]} ["botox"; ""] ≠ EmptyString.
Proof.
  apply (legacy_evidenceNote {[ "name" := "Corner Bakery" ]} ["botox"; ""]).
  right. left.
Defined.

(** Keywords written with capitals: the oldest version reports them as
    written, the resilient one in lower case. *)
Example evidenceNote_as_written :
  Legacy.evidenceNote {[ "name" := "Laser & Botox Bar" ]} ["Laser"; "botox"; "LASER"; "peel"]
  = "name_keywords=Laser,botox,LASER"
  ∧ evidenceNote {[ "name" := "Laser & Botox Bar" ]} ["Laser"; "botox"; "LASER"; "peel"]
    = "name_keywords=laser,botox,laser".
Proof. split; vm_compute; reflexivity. Qed.

(** ** Keywords and patterns *)

Section Keywords.
Context {engine : Engine}.
Implicit Types (keywords pieces : list string) (input : Input).

(** Keywords are clean when they are non-empty and free of surrounding
    white space. *)
Lemma cleanKeywords_clean keywords :
  Forall (fun k => k ≠ EmptyString ∧ Js.trim k = k) (cleanKeywords keywords).
Proof.
  apply Forall_forall. intros k (Hne & k0 & _ & ->)%cleanKeywords_spec.
  split; [exact Hne | apply trim_idem].
Qed.

Lemma cleanKeywords_of_clean keywords :
  Forall (fun k => k ≠ EmptyString ∧ Js.trim k = k) keywords →
  cleanKeywords keywords = keywords.
Proof.
  unfold cleanKeywords. induction 1 as [|k ks [Hne Htrim] _ IH]; [reflexivity|].
  cbn [map List.filter]. rewrite Htrim. apply truthy_true in Hne. by rewrite Hne, IH.
Qed.

(** X6.  Cleaning is idempotent, so passing keywords that were cleaned
    before changes nothing; and unless no keyword is left, the pattern is the
    one the simplest version builds from the cleaned keywords. *)
Theorem buildRegex_cleaning keywords :
  cleanKeywords (cleanKeywords keywords) = cleanKeywords keywords
  ∧ buildRegex (cleanKeywords keywords) = buildRegex keywords
  ∧ (cleanKeywords keywords ≠ [] →
     buildRegex keywords = Legacy.buildRegex (cleanKeywords keywords)).
Proof.
  pose proof (cleanKeywords_of_clean _ (cleanKeywords_clean keywords)) as Hidem.
  split_and!; [exact Hidem | |].
  - unfold buildRegex. by rewrite Hidem.
  - intros Hne. unfold buildRegex, Legacy.buildRegex.
    destruct (cleanKeywords keywords); [contradiction | reflexivity].
Qed.

(** X7.  The simplest version escapes the keywords as they come, and the
    escaping round-trips there too.  Without keywords the group is empty, and
    an empty group, like an empty keyword, makes the pattern find every
    text. *)
Theorem legacy_buildRegex_roundtrip keywords :
  decodePattern (Legacy.buildRegex keywords)
  = Some (match keywords with [] => [EmptyString] | _ :: _ => keywords end)
  ∧ (keywords = [] ∨ EmptyString ∈ keywords →
     ∀ text, patternFinds (Legacy.buildRegex keywords) text = true).
Proof.
  assert (Hdec : decodePattern (Legacy.buildRegex keywords)
    = Some (match keywords with [] => [EmptyString] | _ :: _ => keywords end)).
  { destruct keywords as [|k ks]; [reflexivity|].
    unfold Legacy.buildRegex. by rewrite decodePattern_wrap, decodeBody_join. }
  split; [exact Hdec|]. intros Hempty text. unfold patternFinds. rewrite Hdec.
  apply existsb_exists. exists EmptyString. split; [|apply includes_empty].
  destruct Hempty as [-> | Hin]; [by left|].
  destruct keywords; [by left | by apply list_elem_of_In].
Qed.

Lemma lacks_app (c : ascii) (a b : string) :
  lacks c (a +:+ b) = lacks c a && lacks c b.
Proof.
  induction a as [|x a IH]; [reflexivity|].
  rewrite append_cons. cbn [lacks]. by rewrite IH, andb_assoc.
Qed.

(** A piece without separator is read in one go. *)
Lemma splitGo_piece (sep : ascii) (a cur rest : string) :
  lacks sep a = true →
  Js.splitGo sep cur (a +:+ rest) = Js.splitGo sep (cur +:+ a) rest.
Proof.
  revert cur. induction a as [|x a IH]; intros cur Ha.
  - by rewrite append_empty_l, append_empty_r.
  - cbn [lacks] in Ha. apply andb_true_iff in Ha as [Hx Ha].
    rewrite append_cons. cbn [Js.splitGo].
    apply negb_true_iff in Hx. rewrite Hx, (IH _ Ha).
    by rewrite append_assoc.
Qed.

Lemma splitGo_join (sep : ascii) (cur k : string) (ks : list string) :
  Forall (fun p => lacks sep p = true) (k :: ks) →
  Js.splitGo sep cur (Js.join (String sep EmptyString) (k :: ks)) = (cur +:+ k) :: ks.
Proof.
  revert cur k. induction ks as [|k2 ks IH]; intros cur k Hall.
  - apply Forall_cons in Hall as [Hk _]. cbn [Js.join].
    rewrite <- (append_empty_r k) at 1. by rewrite (splitGo_piece _ _ _ _ Hk).
  - apply Forall_cons in Hall as [Hk Hall].
    change (Js.join (String sep EmptyString) (k :: k2 :: ks))
      with (k +:+ String sep EmptyString +:+ Js.join (String sep EmptyString) (k2 :: ks)).
    rewrite (splitGo_piece _ _ _ _ Hk), append_cons, append_empty_l.
    cbn [Js.splitGo]. rewrite Ascii.eqb_refl, (IH _ _ Hall). reflexivity.
Qed.

(** Splitting undoes joining. *)
Lemma split_join (sep : ascii) pieces :
  pieces ≠ [] → Forall (fun p => lacks sep p = true) pieces →
  Js.split sep (Js.join (String sep EmptyString) pieces) = pieces.
Proof.
  intros Hne Hall. destruct pieces as [|k ks]; [contradiction|].
  unfold Js.split. by rewrite (splitGo_join _ _ _ _ Hall).
Qed.

(** The keywords come from the text when [keywords] is not a non-empty
    array. *)
Lemma resolveKeywords_text input (text : string) :
  in_keywords input = None ∨ in_keywords input = Some [] →
  in_keyword_list input = Some text →
  resolveKeywords input = cleanKeywords (Js.split "," text).
Proof. intros [Hk | Hk] Ht; unfold resolveKeywords; by rewrite Hk, Ht. Qed.

(** X8.  Writing keywords as a comma-separated text and reading the text
    back round-trips: the pieces come back cleaned, and clean pieces come
    back as they are. *)
Theorem keyword_list_roundtrip input pieces :
  in_keywords input = None ∨ in_keywords input = Some [] →
  in_keyword_list input = Some (Js.join "," pieces) →
  pieces ≠ [] →
  Forall (fun p => lacks "," p = true) pieces →
  resolveKeywords input = cleanKeywords pieces
  ∧ (Forall (fun p => p ≠ EmptyString ∧ Js.trim p = p) pieces →
     resolveKeywords input = pieces).
Proof.
  intros Hk Ht Hne Hall.
  rewrite (resolveKeywords_text _ _ Hk Ht), (split_join _ _ Hne Hall).
  split; [reflexivity | apply cleanKeywords_of_clean].
Qed.

Lemma splitGo_lacks (sep : ascii) (cur s : string) :
  lacks sep cur = true → Forall (fun p => lacks sep p = true) (Js.splitGo sep cur s).
Proof.
  revert cur. induction s as [|c s IH]; intros cur Hcur; cbn [Js.splitGo].
  - by constructor.
  - destruct (Ascii.eqb c sep) eqn:Ec.
    + constructor; [exact Hcur | by apply IH].
    + apply IH. rewrite lacks_app, Hcur. cbn [lacks]. by rewrite Ec.
Qed.

Lemma lacks_trimStart (c : ascii) (s : string) :
  lacks c s = true → lacks c (Js.trimStart s) = true.
Proof.
  induction s as [|x s IH]; [done|]. intros Hs. cbn [Js.trimStart].
  destruct (Js.isWhiteSpace x); [|exact Hs].
  apply IH. cbn [lacks] in Hs. by apply andb_true_iff in Hs as [_ ?].
Qed.

Lemma lacks_trimEnd (c : ascii) (s : string) :
  lacks c s = true → lacks c (Js.trimEnd s) = true.
Proof.
  induction s as [|x s IH]; [done|]. intros Hs.
  cbn [lacks] in Hs. apply andb_true_iff in Hs as [Hx Hs].
  rewrite trimEnd_cons. specialize (IH Hs).
  destruct (Js.trimEnd s) as [|y t].
  - destruct (Js.isWhiteSpace x); [reflexivity|]. cbn [lacks]. by rewrite Hx.
  - cbn [lacks] in *. by rewrite Hx, IH.
Qed.

Lemma cleanKeywords_nil_iff pieces :
  cleanKeywords pieces = [] ↔ Forall (fun p => blank p = true) pieces.
Proof.
  unfold cleanKeywords. induction pieces as [|p ps IH]; [by split; constructor|].
  cbn [map List.filter]. destruct (Js.truthy (Js.trim p)) eqn:Et.
  - split; [discriminate|]. intros [Hb _]%Forall_cons.
    apply trim_empty_iff in Hb. rewrite Hb in Et. discriminate Et.
  - apply truthy_false, trim_empty_iff in Et. rewrite IH. split.
    + intros Hps. by constructor.
    + by intros [_ Hps]%Forall_cons.
Qed.

(** X9.  Keywords read from the comma-separated text are non-empty, free of
    surrounding white space and of commas, so the cleaning done by
    [buildRegex] leaves them as they are.  When every piece of the text is
    blank no keyword is left at all: the pattern is then the built-in
    default, and no evidence note is ever produced. *)
Theorem keywords_from_text input (text : string) :
  in_keywords input = None ∨ in_keywords input = Some [] →
  in_keyword_list input = Some text →
  Forall (fun k => k ≠ EmptyString ∧ Js.trim k = k ∧ lacks "," k = true)
    (resolveKeywords input)
  ∧ cleanKeywords (resolveKeywords input) = resolveKeywords input
  ∧ (resolveKeywords input = [] ↔ Forall (fun p => blank p = true) (Js.split "," text))
  ∧ (resolveKeywords input = [] →
     buildRegex (resolveKeywords input) = "(?i)(" +:+ defaultPattern +:+ ")"
     ∧ ∀ tags, evidenceNote tags (resolveKeywords input) = EmptyString).
Proof.
  intros Hk Ht. rewrite (resolveKeywords_text _ _ Hk Ht). split_and!.
  - apply Forall_forall. intros k Hin.
    pose proof Hin as (Hne & p & Hp & ->)%cleanKeywords_spec.
    split_and!; [exact Hne | apply trim_idem |].
    apply lacks_trimEnd, lacks_trimStart.
    pose proof (splitGo_lacks "," EmptyString text eq_refl) as Hall.
    rewrite Forall_forall in Hall. by apply Hall.
  - apply cleanKeywords_of_clean, cleanKeywords_clean.
  - apply cleanKeywords_nil_iff.
  - intros ->. split; reflexivity.
Qed.







End Keywords.


(** No keyword at all. *)
Lemma legacy_buildRegex_roundtrip_witness :
  patternFinds (Legacy.buildRegex []) "Corner Bakery" = true.
Proof. apply (legacy_buildRegex_roundtrip []). left. reflexivity. Defined.

(** A keyword that trims to nothing next to one that stays. *)
Lemma buildRegex_cleaning_witness :
  buildRegex ["  "; " laser "] = Legacy.buildRegex (cleanKeywords ["  "; " laser "]).
Proof. apply (buildRegex_cleaning ["  "; " laser "]). discriminate. Defined.

(** Three pieces, one of them empty. *)
Lemma keyword_list_roundtrip_witness :
  resolveKeywords (inputWithKeywordList (Js.join "," [" botox"; ""; "laser "]))
  = cleanKeywords [" botox"; ""; "laser "].
Proof.
  apply (keyword_list_roundtrip (inputWithKeywordList (Js.join "," [" botox"; ""; "laser "]))
           [" botox"; ""; "laser "]).
  - left. reflexivity.
  - reflexivity.
  - discriminate.
  - repeat constructor.
Defined.

(** A text of commas and blanks. *)
Lemma keywords_from_text_witness :
  resolveKeywords (inputWithKeywordList " , ,") = []
  ↔ Forall (fun p => blank p = true) (Js.split "," " , ,").
Proof.
  apply (keywords_from_text (inputWithKeywordList " , ,") " , ,").
  - left. reflexivity.
  - reflexivity.
Defined.

(** ** Bounding box *)

Section FlatBox.
Context {engine : Engine}.

Lemma within_number (lo hi : Z) (q : Q) :
  within lo hi (VNum (Fin q)) = true ↔ (inject_Z lo <= q)%Q ∧ (q <= inject_Z hi)%Q.
Proof. unfold within. cbn [ToNumber leNum]. by rewrite andb_true_iff, !Qle_bool_iff. Qed.

Lemma toNum_finite_default (v : JsVal) (def : Q) : ∃ q, toNum v (Fin def) = Fin q.
Proof.
  unfold toNum. destruct (ToNumber v) as [| | |q]; cbn [isFinite]; eauto.
Qed.

Lemma bboxOk_boxOf (s w n e : Q) :
  bboxOk (boxOf s w n e) = true
  ↔ (-90 <= s)%Q ∧ (s <= 90)%Q ∧ (-90 <= n)%Q ∧ (n <= 90)%Q
    ∧ (-180 <= w)%Q ∧ (w <= 180)%Q ∧ (-180 <= e)%Q ∧ (e <= 180)%Q.
Proof.
  unfold bboxOk, boxOf. cbn [south west north east].
  rewrite !andb_true_iff, !within_number. tauto.
Qed.

(** X11.  A box resolved from the flat fields never holds NaN, an infinity
    or text: after a successful normalization its four coordinates are
    finite numbers within the latitude and longitude ranges.  For four
    numbers, being within the ranges is also sufficient: the order of south
    and north, or of west and east, is not checked. *)
Theorem normalizeInput_flat_box :
  (∀ input cfg,
     in_bbox input = None → normalizeInput input = Normal cfg →
     ∃ s w n e,
       cfg_bbox cfg = boxOf s w n e
       ∧ (-90 <= s)%Q ∧ (s <= 90)%Q ∧ (-90 <= n)%Q ∧ (n <= 90)%Q
       ∧ (-180 <= w)%Q ∧ (w <= 180)%Q ∧ (-180 <= e)%Q ∧ (e <= 180)%Q)
  ∧ (∀ s w n e,
       (∃ cfg, normalizeInput (flatInput (VNum (Fin s)) (VNum (Fin w))
                                 (VNum (Fin n)) (VNum (Fin e))) = Normal cfg
               ∧ cfg_bbox cfg = boxOf s w n e)
       ↔ (-90 <= s)%Q ∧ (s <= 90)%Q ∧ (-90 <= n)%Q ∧ (n <= 90)%Q
         ∧ (-180 <= w)%Q ∧ (w <= 180)%Q ∧ (-180 <= e)%Q ∧ (e <= 180)%Q).
Proof.
  split.
  - intros input cfg Hflat. rewrite normalizeInput_spec.
    destruct (bboxOk (resolveBBox input)) eqn:Hok; [|discriminate].
    intros [= <-]. cbn [cfg_bbox]. unfold resolveBBox in *. rewrite Hflat in *.
    unfold num_29_10, num_m98_85, num_29_75, num_m98_10 in *.
    destruct (toNum_finite_default (in_bbox_south input)
                (4095460911140045 # 140737488355328)) as [s Hs].
    destruct (toNum_finite_default (in_bbox_west input)
                (-3477975180981043 # 35184372088832)) as [w Hw].
    destruct (toNum_finite_default (in_bbox_north input) (119 # 4)) as [n Hn].
    destruct (toNum_finite_default (in_bbox_east input)
                (-3451586901914419 # 35184372088832)) as [e He].
    rewrite Hs, Hw, Hn, He in *. exists s, w, n, e.
    split; [reflexivity|]. by apply bboxOk_boxOf.
  - intros s w n e. rewrite <- bboxOk_boxOf, normalizeInput_spec.
    change (resolveBBox (flatInput (VNum (Fin s)) (VNum (Fin w)) (VNum (Fin n)) (VNum (Fin e))))
      with (boxOf s w n e).
    destruct (bboxOk (boxOf s w n e)); split; try done.
    + intros _. eexists. split; reflexivity.
    + intros (cfg & Hcfg & _). discriminate Hcfg.
Qed.

End FlatBox.

(** The box of the empty input. *)
Lemma normalizeInput_flat_box_witness :
  ∃ s w n e,
    defaultBBox = boxOf s w n e
    ∧ (-90 <= s)%Q ∧ (s <= 90)%Q ∧ (-90 <= n)%Q ∧ (n <= 90)%Q
    ∧ (-180 <= w)%Q ∧ (w <= 180)%Q ∧ (-180 <= e)%Q ∧ (e <= 180)%Q.
Proof.
  apply (proj1 (normalizeInput_flat_box (engine := refEngine)) emptyInput
           {| cfg_bbox := defaultBBox; cfg_keywords := defaultKws;
              cfg_city := "San Antonio" |}); reflexivity.
Defined.

(** ** More on the deduplicator *)

Section DedupeMore.
Implicit Types (rows pre : list Row) (r : Row) (k : string).

Lemma dedupeRows_key_elem k rows :
  k ∈ dedupKey <$> dedupeRows rows ↔ k ∈ dedupKey <$> rows.
Proof.
  destruct (decide (k ∈ dedupKey <$> rows)) as [Hin|Hout].
  - split; [done|]. intros _.
    destruct (decide (k ∈ dedupKey <$> dedupeRows rows)) as [|Hn]; [done|].
    apply firstWithKey_None in Hn. rewrite dedupeRows_first in Hn.
    apply firstWithKey_None in Hn. contradiction.
  - split; [|done]. intros Hk. exfalso.
    apply firstWithKey_None in Hout. rewrite <- dedupeRows_first in Hout.
    apply firstWithKey_None in Hout. contradiction.
Qed.

Lemma dedupeRows_of_NoDup rows :
  NoDup (dedupKey <$> rows) → dedupeRows rows = rows.
Proof.
  induction rows as [|r pre IH] using rev_ind; [reflexivity|].
  rewrite fmap_app. intros (Hpre & Hfresh & _)%NoDup_app.
  rewrite dedupeRows_snoc, (IH Hpre).
  destruct (decide _) as [Hin|_]; [|reflexivity].
  exfalso. apply (Hfresh _ Hin). by left.
Qed.

Lemma dedupeRows_full rows :
  length (dedupeRows rows) = length rows → dedupeRows rows = rows.
Proof.
  induction rows as [|r pre IH] using rev_ind; [reflexivity|].
  rewrite dedupeRows_snoc, !length_app.
  pose proof (sublist_length _ _ (dedupeRows_sublist pre)) as Hle.
  destruct (decide _) as [Hin|Hout]; cbn [length]; intros Hlen; [lia|].
  rewrite IH; [reflexivity | lia].
Qed.

(** X12.  Deduplication keeps one row for every key of its input and no
    other: the keys of the output are the keys of the input, the number of
    rows kept is the number of distinct keys, and nothing is removed
    exactly when the input has no two rows with the same key. *)
Theorem dedupeRows_keys_and_count rows :
  (list_to_set (dedupKey <$> dedupeRows rows) : gset string)
  = list_to_set (dedupKey <$> rows)
  ∧ length (dedupeRows rows) = size (list_to_set (dedupKey <$> rows) : gset string)
  ∧ (length (dedupeRows rows) ≤ length rows)%nat
  ∧ (length (dedupeRows rows) = length rows ↔ NoDup (dedupKey <$> rows))
  ∧ (dedupeRows rows = rows ↔ NoDup (dedupKey <$> rows)).
Proof.
  assert (Hset : (list_to_set (dedupKey <$> dedupeRows rows) : gset string)
                 = list_to_set (dedupKey <$> rows)).
  { apply set_eq. intros k. rewrite !elem_of_list_to_set. apply dedupeRows_key_elem. }
  assert (Hsame : dedupeRows rows = rows ↔ NoDup (dedupKey <$> rows)).
  { split; [|apply dedupeRows_of_NoDup].
    intros <-. apply dedupeRows_keys_NoDup. }
  split_and!.
  - exact Hset.
  - rewrite <- Hset, size_list_to_set, length_fmap; [reflexivity|].
    apply dedupeRows_keys_NoDup.
  - apply sublist_length, dedupeRows_sublist.
  - rewrite <- Hsame. split; [apply dedupeRows_full | by intros ->].
  - exact Hsame.
Qed.

(** X13.  Deduplication composes over concatenation: the rows of a second
    batch are kept as if the batch were deduplicated on its own after the
    rows whose key occurs in the first batch were removed.  In particular
    the first row of a list is always kept, and the rest is treated without
    the rows bearing its key. *)
Theorem dedupeRows_app (l1 l2 : list Row) :
  dedupeRows (l1 ++ l2)
  = dedupeRows l1 ++ dedupeRows (filter (fun r => dedupKey r ∉ dedupKey <$> l1) l2)
  ∧ ∀ r rows,
      dedupeRows (r :: rows)
      = r :: dedupeRows (filter (fun r' => dedupKey r' ∉ dedupKey <$> [r]) rows).
Proof.
  assert (Happ : ∀ l1 l2, dedupeRows (l1 ++ l2)
    = dedupeRows l1 ++ dedupeRows (filter (fun r => dedupKey r ∉ dedupKey <$> l1) l2)).
  { clear. intros l1 l2. induction l2 as [|r l2 IH] using rev_ind.
    - by rewrite filter_nil, !app_nil_r.
    - rewrite app_assoc, dedupeRows_snoc, IH, filter_app, filter_cons, filter_nil.
      destruct (decide (dedupKey r ∉ dedupKey <$> l1)) as [Hout|Hin].
      + rewrite dedupeRows_snoc, app_assoc. f_equal.
        destruct (decide (dedupKey r ∈ dedupKey <$> l1 ++ l2)) as [H1|H1];
          destruct (decide (dedupKey r ∈ dedupKey <$> filter _ l2)) as [H2|H2];
          try reflexivity; exfalso.
        * apply H2. rewrite fmap_app in H1.
          apply elem_of_app in H1 as [H1|H1]; [contradiction|].
          apply list_elem_of_fmap in H1 as (r' & Hk & Hr').
          apply list_elem_of_fmap. exists r'. split; [exact Hk|].
          apply list_elem_of_filter. split; [by rewrite <- Hk | exact Hr'].
        * apply H1. rewrite fmap_app. apply elem_of_app. right.
          apply list_elem_of_fmap in H2 as (r' & Hk & Hr').
          apply list_elem_of_filter in Hr' as [_ Hr'].
          apply list_elem_of_fmap. by exists r'.
      + rewrite !app_nil_r. apply dec_stable in Hin.
        rewrite decide_True; [by rewrite app_nil_r|].
        rewrite fmap_app. apply elem_of_app. by left. }
  split; [apply Happ|]. intros r rows.
  change (r :: rows) with ([r] ++ rows). by rewrite Happ.
Qed.

End DedupeMore.

(** ** Rows of the named elements *)

Section NamedElements.
Context {engine : Engine}.

Lemma extractRows_cons (keywords : list string) (fallbackCity : string)
    (el : Element) (els : list Element) :
  extractRows keywords fallbackCity (el :: els)
  = match extractRow keywords fallbackCity el with
    | Some r => r :: extractRows keywords fallbackCity els
    | None => extractRows keywords fallbackCity els
    end.
Proof. reflexivity. Qed.

(** X14.  The extractor yields one row per named element, in the order of
    the response: the names of the rows are the trimmed name tags of the
    elements that have a name.  It works element by element, so the rows of
    two concatenated responses are the rows of each, concatenated. *)
Theorem extractRows_named (keywords : list string) (fallbackCity : string)
    (els els' : list Element) :
  name <$> extractRows keywords fallbackCity els
  = (fun el => Js.trim (rawName el)) <$> filter (fun el => unnamed el = false) els
  ∧ length (extractRows keywords fallbackCity els)
    = length (filter (fun el => unnamed el = false) els)
  ∧ (length (extractRows keywords fallbackCity els) ≤ length els)%nat
  ∧ extractRows keywords fallbackCity (els ++ els')
    = extractRows keywords fallbackCity els ++ extractRows keywords fallbackCity els'.
Proof.
  assert (Hnames : name <$> extractRows keywords fallbackCity els
    = (fun el => Js.trim (rawName el)) <$> filter (fun el => unnamed el = false) els).
  { induction els as [|el els IH]; [reflexivity|].
    rewrite extractRows_cons, filter_cons.
    destruct (extractRow keywords fallbackCity el) as [r|] eqn:Er.
    - pose proof (extractRow_Some _ _ _ _ Er) as (Hname & _).
      assert (Hu : unnamed el = false).
      { destruct (unnamed el) eqn:Eu; [|reflexivity].
        apply (extractRow_None keywords fallbackCity) in Eu. congruence. }
      rewrite decide_True by exact Hu. rewrite !fmap_cons, IH, Hname. reflexivity.
    - apply extractRow_None in Er. rewrite decide_False by congruence. exact IH. }
  split_and!.
  - exact Hnames.
  - by rewrite <- (length_fmap name), Hnames, length_fmap.
  - rewrite <- (length_fmap name), Hnames, length_fmap. apply length_filter.
  - apply omap_app.
Qed.

End NamedElements.

(** ** Cost of a query *)

Section ClientBounds.
Context {engine : Engine}.
Variable world : World.
Variable ql : string.

Lemma attemptEvents_fetches (made : list Attempt) :
  length (List.filter isFetch (concat (map (attemptEvents ql) made))) = length made.
Proof.
  induction made as [|a made IH]; [reflexivity|].
  cbn [map concat length]. rewrite List.filter_app, length_app, IH.
  unfold attemptEvents. by destruct (at_result a).
Qed.

Lemma sleepTotal_app (l k : list Event) :
  sleepTotal (l ++ k) = (sleepTotal l + sleepTotal k)%nat.
Proof. unfold sleepTotal. by rewrite fmap_app, sum_list_with_app. Qed.

Lemma attemptEvents_sleep (made : list Attempt) :
  (sleepTotal (concat (map (attemptEvents ql) made)) ≤ 700 * sum_list (at_number <$> made))%nat.
Proof.
  induction made as [|a made IH]; [reflexivity|].
  cbn [map concat]. rewrite sleepTotal_app, fmap_cons.
  change (sum_list (at_number a :: (at_number <$> made)))
    with (at_number a + sum_list (at_number <$> made))%nat.
  assert (Ha : (sleepTotal (attemptEvents ql a) ≤ 700 * at_number a)%nat).
  { unfold attemptEvents, sleepTotal. destruct (at_result a).
    - cbn [app fmap list_fmap sleepOf sum_list_with]. unfold id. lia.
    - cbn [app fmap list_fmap sleepOf sum_list_with]. unfold id. lia. }
  lia.
Qed.

Lemma attemptsFrom_numbers (n : nat) (sched : list (string * nat)) :
  (sum_list (at_number <$> attemptsFrom world ql n sched) ≤ sum_list (snd <$> sched))%nat
  ∧ (length (attemptsFrom world ql n sched) ≤ length sched)%nat
  ∧ Forall (fun a => at_ep a ∈ fst <$> sched) (attemptsFrom world ql n sched).
Proof.
  revert n. induction sched as [|[ep k] sched IH]; intros n.
  - split_and!; [reflexivity | reflexivity | constructor].
  - cbn [attemptsFrom]. destruct (IH (S n)) as (Hsum & Hlen & Heps).
    rewrite !fmap_cons. cbn [fst snd at_number at_ep length].
    change (sum_list (k :: (snd <$> sched))) with (k + sum_list (snd <$> sched))%nat.
    destruct (attemptResult _).
    + split_and!.
      * change (k + 0 ≤ k + sum_list (snd <$> sched))%nat. lia.
      * cbn [length]. lia.
      * repeat constructor.
    + change (sum_list (k :: (at_number <$> attemptsFrom world ql (S n) sched)))
        with (k + sum_list (at_number <$> attemptsFrom world ql (S n) sched))%nat.
      split_and!; [lia | cbn [length]; lia |].
      constructor; [by left|].
      eapply Forall_impl; [exact Heps|]. intros a Ha. by right.
Qed.

Lemma made_bounds (n : nat) :
  (1 ≤ length (attemptsFrom world ql n schedule) ≤ 9)%nat
  ∧ (sum_list (at_number <$> attemptsFrom world ql n schedule) ≤ 18)%nat
  ∧ Forall (fun a => at_ep a ∈ OVERPASS_ENDPOINTS) (attemptsFrom world ql n schedule).
Proof.
  destruct (attemptsFrom_numbers n schedule) as (Hsum & Hlen & Heps).
  split_and!.
  - unfold schedule. cbn [flat_map OVERPASS_ENDPOINTS map app attemptsFrom length]. lia.
  - exact Hlen.
  - exact Hsum.
  - eapply Forall_impl; [exact Heps|]. intros a Ha.
    change (fst <$> schedule)
      with (let e := OVERPASS_ENDPOINTS in
            [ "https://overpass-api.de/api/interpreter";
              "https://overpass-api.de/api/interpreter";
              "https://overpass-api.de/api/interpreter";
              "https://overpass.kumi.systems/api/interpreter";
              "https://overpass.kumi.systems/api/interpreter";
              "https://overpass.kumi.systems/api/interpreter";
              "https://overpass.openstreetmap.ru/api/interpreter";
              "https://overpass.openstreetmap.ru/api/interpreter";
              "https://overpass.openstreetmap.ru/api/interpreter" ]) in Ha.
    cbn zeta in Ha. unfold OVERPASS_ENDPOINTS.
    repeat (apply elem_of_cons in Ha as [-> | Ha];
            [repeat first [by left | right] |]).
    by apply elem_of_nil in Ha.
Qed.

(** What a request of the client may be: a post of the query, with the
    fixed headers, to one of the three endpoints. *)
Lemma attemptEvents_shape (made : list Attempt) :
  Forall (fun a => at_ep a ∈ OVERPASS_ENDPOINTS) made →
  Forall (fun ev =>
            match ev with
            | EvFetch ep headers data =>
                ep ∈ OVERPASS_ENDPOINTS ∧ headers = requestHeaders ∧ data = ql
            | EvPushData _ | EvSetValue _ _ => False
            | _ => True
            end) (concat (map (attemptEvents ql) made)).
Proof.
  induction 1 as [|a made Ha _ IH]; [constructor|].
  cbn [map concat]. apply Forall_app. split; [|exact IH].
  unfold attemptEvents. cbn [app].
  destruct (at_result a);
    repeat (apply Forall_cons; split; [first [exact I | by split_and!] |]);
    apply Forall_nil_2.
Qed.

(** X15.  A call of the client costs at least one and at most nine
    requests, each a post of the same query with the same headers to one of
    the three endpoints, and at most 12.6 seconds of pauses (700 ms times
    1+2+3, for three endpoints); it stores nothing.  When the first request
    succeeds there is one request and no pause. *)
Theorem queryOverpass_cost (s : St) :
  ∃ tr,
    st_trace (queryOverpass world ql s).2 = st_trace s ++ tr
    ∧ st_calls (queryOverpass world ql s).2
      = (st_calls s + length (List.filter isFetch tr))%nat
    ∧ (1 ≤ length (List.filter isFetch tr) ≤ 9)%nat
    ∧ (sleepTotal tr ≤ 700 * 18)%nat
    ∧ Forall (fun ev =>
                match ev with
                | EvFetch ep headers data =>
                    ep ∈ OVERPASS_ENDPOINTS ∧ headers = requestHeaders ∧ data = ql
                | EvPushData _ | EvSetValue _ _ => False
                | _ => True
                end) tr
    ∧ ((∃ json, attemptResult
                  (w_fetch world (st_calls s) "https://overpass-api.de/api/interpreter" ql)
                = Normal json) →
       tr = [EvLog (LogAttempt "https://overpass-api.de/api/interpreter" 1);
             EvFetch "https://overpass-api.de/api/interpreter" requestHeaders ql]).
Proof.
  exists (concat (map (attemptEvents ql) (attemptsFrom world ql (st_calls s) schedule))).
  rewrite queryOverpass_run. cbn [snd]. unfold after. cbn [st_trace st_calls].
  destruct (made_bounds (st_calls s)) as (Hlen & Hsum & Heps).
  rewrite attemptEvents_fetches. split_and!; try done.
  - lia.
  - lia.
  - pose proof (attemptEvents_sleep (attemptsFrom world ql (st_calls s) schedule)). lia.
  - by apply attemptEvents_shape.
  - intros [json Hj]. unfold schedule.
    cbn [flat_map OVERPASS_ENDPOINTS map app attemptsFrom]. rewrite Hj. reflexivity.
Qed.

End ClientBounds.

(** A platform that answers the first request. *)
Lemma queryOverpass_cost_witness :
  ∃ tr,
    st_trace (queryOverpass shapelessWorld demoQL initSt).2 = st_trace initSt ++ tr
    ∧ tr = [EvLog (LogAttempt "https://overpass-api.de/api/interpreter" 1);
            EvFetch "https://overpass-api.de/api/interpreter" requestHeaders demoQL].
Proof.
  destruct (queryOverpass_cost shapelessWorld demoQL initSt)
    as (tr & Htr & _ & _ & _ & _ & Hfirst).
  exists tr. split; [exact Htr|]. apply Hfirst. exists JsonOther. reflexivity.
Defined.

(** ** The client and the run of the first version *)

Section LegacyClient.
Context {engine : Engine}.
Variable world : World.

Lemma legacy_attemptOnce_run (ep ql : string) (s : St) :
  Legacy.attemptOnce world ep ql s
  = (plainResult (w_fetch world (st_calls s) ep ql),
     {| st_calls := S (st_calls s);
        st_trace := st_trace s ++ [EvFetch ep Legacy.requestHeaders ql] |}).
Proof.
  unfold Legacy.attemptOnce, bind, doFetch, plainResult, throw, lift.
  destruct (w_fetch world (st_calls s) ep ql) as [e|r]; [reflexivity|].
  destruct (negb (res_ok r)); reflexivity.
Qed.

Lemma legacy_queryOverpass_run (ql : string) (s : St) :
  let ep1 := "https://overpass-api.de/api/interpreter" in
  let ep2 := "https://overpass.kumi.systems/api/interpreter" in
  let ep3 := "https://overpass.openstreetmap.ru/api/interpreter" in
  let post ep := EvFetch ep Legacy.requestHeaders ql in
  Legacy.queryOverpass world ql s =
    match plainResult (w_fetch world (st_calls s) ep1 ql),
          plainResult (w_fetch world (S (st_calls s)) ep2 ql),
          plainResult (w_fetch world (S (S (st_calls s))) ep3 ql) with
    | Normal json, _, _ =>
        (Normal json, {| st_calls := st_calls s + 1; st_trace := st_trace s ++ [post ep1] |})
    | Throw _, Normal json, _ =>
        (Normal json,
         {| st_calls := st_calls s + 2; st_trace := st_trace s ++ [post ep1; post ep2] |})
    | Throw _, Throw _, r =>
        (r, {| st_calls := st_calls s + 3;
               st_trace := st_trace s ++ [post ep1; post ep2; post ep3] |})
    end.
Proof.
  intros ep1 ep2 ep3 post.
  unfold Legacy.queryOverpass, OVERPASS_ENDPOINTS. cbn [Legacy.endpointLoop].
  fold ep1 ep2 ep3.
  unfold bind at 1. unfold bind at 1. unfold try at 1.
  rewrite legacy_attemptOnce_run. fold (post ep1).
  replace (st_calls s + 1) with (S (st_calls s)) by lia.
  replace (st_calls s + 2) with (S (S (st_calls s))) by lia.
  replace (st_calls s + 3) with (S (S (S (st_calls s)))) by lia.
  destruct (plainResult (w_fetch world (st_calls s) ep1 ql)) as [j1|e1].
  { destruct (plainResult (w_fetch world (S (st_calls s)) ep2 ql));
      destruct (plainResult (w_fetch world (S (S (st_calls s))) ep3 ql)); reflexivity. }
  unfold bind at 1. unfold try at 1.
  rewrite legacy_attemptOnce_run. cbn [st_calls st_trace]. fold (post ep2).
  rewrite <- app_assoc. cbn [app].
  destruct (plainResult (w_fetch world (S (st_calls s)) ep2 ql)) as [j2|e2].
  { destruct (plainResult (w_fetch world (S (S (st_calls s))) ep3 ql)); reflexivity. }
  unfold bind at 1. unfold try at 1.
  rewrite legacy_attemptOnce_run. cbn [st_calls st_trace]. fold (post ep3).
  rewrite <- app_assoc. cbn [app].
  destruct (plainResult (w_fetch world (S (S (st_calls s))) ep3 ql)) as [j3|e3];
    reflexivity.
Qed.

(** X16.  The client of the first version posts the query once to each
    endpoint in turn, with the content-type header only, until one request
    resolves with an ok status and a body that parses; it neither logs nor
    pauses, it never looks at the content type of the answer, and when all
    three requests fail it throws the error of the third.  It makes between
    one and three requests. *)
Theorem legacy_queryOverpass (ql : string) (s : St) :
  let ep1 := "https://overpass-api.de/api/interpreter" in
  let ep2 := "https://overpass.kumi.systems/api/interpreter" in
  let ep3 := "https://overpass.openstreetmap.ru/api/interpreter" in
  let post ep := EvFetch ep [("Content-Type", "application/x-www-form-urlencoded")] ql in
  let r1 := plainResult (w_fetch world (st_calls s) ep1 ql) in
  let r2 := plainResult (w_fetch world (S (st_calls s)) ep2 ql) in
  let r3 := plainResult (w_fetch world (S (S (st_calls s))) ep3 ql) in
  let out := Legacy.queryOverpass world ql s in
  (∀ r, plainResult (FetchResolves r) =
          if res_ok r then res_json r
          else Throw (newError ("Overpass HTTP " +:+ pretty (res_status r))))
  ∧ (∀ e, plainResult (FetchRejects e) = Throw e)
  ∧ out.1 = match r1, r2 with
            | Normal json, _ => Normal json
            | Throw _, Normal json => Normal json
            | Throw _, Throw _ => r3
            end
  ∧ st_trace out.2 = st_trace s ++
      match r1, r2 with
      | Normal _, _ => [post ep1]
      | Throw _, Normal _ => [post ep1; post ep2]
      | Throw _, Throw _ => [post ep1; post ep2; post ep3]
      end
  ∧ (st_calls s + 1 ≤ st_calls out.2 ≤ st_calls s + 3)%nat.
Proof.
  intros ep1 ep2 ep3 post r1 r2 r3 out.
  split_and!.
  1: { intros r. unfold plainResult. by destruct (res_ok r). }
  1: reflexivity.
  all: pose proof (legacy_queryOverpass_run ql s) as Hq; cbn zeta in Hq.
  all: unfold out, r1, r2, r3, post, ep1, ep2, ep3; rewrite Hq.
  all: destruct (plainResult (w_fetch world (st_calls s) _ ql));
         destruct (plainResult (w_fetch world (S (st_calls s)) _ ql));
         destruct (plainResult (w_fetch world (S (S (st_calls s))) _ ql)).
  all: first [reflexivity | cbn [snd st_calls]; lia].
Qed.

(** X17.  The run of the first version validates nothing and catches
    nothing: the box of the input goes into the query as it is, an error of
    the client ends the run with that error and nothing stored, and an
    answer is followed by exactly the dataset and the summary. *)
Theorem legacy_run :
  let input := default emptyInput (w_input world) in
  let keywords := resolveKeywords input in
  let city := resolveCity input in
  let bbox := Legacy.resolveBBox input in
  let ql := overpassQL 4 (buildRegex keywords) bbox in
  let out := Legacy.queryOverpass world ql initSt in
  match out.1 with
  | Throw e =>
      Legacy.run world = (Throw e, st_trace out.2)
      ∧ List.filter isStore (Legacy.run world).2 = []
  | Normal json =>
      let rows := extractRows keywords city (elementsOf json) in
      Legacy.run world =
        (Normal tt,
         st_trace out.2 ++
           [EvPushData (dedupeRows rows);
            EvSetValue "RUN-SUMMARY" (SummaryValue
              {| found := length rows; deduped := length (dedupeRows rows);
                 sum_bbox := bbox; sum_keywords := keywords; sum_city := city;
                 hint := hintText |})])
  end.
Proof.
  intros input keywords city bbox ql out.
  assert (Hrun : Legacy.run world =
            match out with
            | (Normal json, s') =>
                let rows := extractRows keywords city (elementsOf json) in
                (Normal tt,
                 st_trace s' ++
                   [EvPushData (dedupeRows rows);
                    EvSetValue "RUN-SUMMARY" (SummaryValue
                      {| found := length rows; deduped := length (dedupeRows rows);
                         sum_bbox := bbox; sum_keywords := keywords; sum_city := city;
                         hint := hintText |})])
            | (Throw e, s') => (Throw e, st_trace s')
            end).
  { unfold Legacy.run, Legacy.main. fold input keywords city bbox ql.
    unfold bind at 1. fold out. destruct out as [[json|e] s']; [|reflexivity].
    unfold bind, emit. cbn [st_trace st_calls]. by rewrite <- app_assoc. }
  rewrite Hrun. clear Hrun.
  pose proof (legacy_queryOverpass_run ql initSt) as Hq. cbn zeta in Hq.
  fold out in Hq. clearbody out.
  destruct out as [[json|e] s']; cbn [fst snd]; [reflexivity|].
  split; [reflexivity|].
  revert Hq.
  repeat match goal with
         | |- context [plainResult ?o] => destruct (plainResult o)
         end;
    intros Hq; first [discriminate Hq | injection Hq as _ ->; reflexivity].
Qed.

End LegacyClient.

(** ** What a run leaves behind *)

Section RunFacts.
Context {engine : Engine}.

Lemma extractRow_city keywords fallbackCity el r :
  extractRow keywords fallbackCity el = Some r →
  city r = cityFromTags (default ∅ (el_tags el)) fallbackCity.
Proof.
  unfold extractRow. destruct (negb (Js.truthy (Js.trim _))); [discriminate|].
  by intros [= <-].
Qed.

Lemma rootDomain_lower (url : string) : Js.toLowerCase (rootDomain url) = rootDomain url.
Proof.
  unfold rootDomain. destruct (negb (Js.truthy url)); [reflexivity|].
  destruct (URLHostname _) as [hostname|]; [|reflexivity]. cbn zeta.
  destruct (Js.startsWith _ "www.");
    [by rewrite toLowerCase_slice, toLowerCase_idem | apply toLowerCase_idem].
Qed.

Lemma filter_none {A} (f : A → bool) (l : list A) :
  Forall (fun x => f x = false) l → List.filter f l = [].
Proof.
  induction 1 as [|x l Hx _ IH]; [reflexivity|]. cbn [List.filter]. by rewrite Hx.
Qed.

Lemma attemptEvents_no_store (ql : string) (made : list Attempt) :
  Forall (fun ev => isStore ev = false) (concat (map (attemptEvents ql) made)).
Proof.
  induction made as [|a made IH]; [constructor|].
  cbn [map concat]. apply Forall_app. split; [|exact IH].
  unfold attemptEvents. destruct (at_result a); repeat constructor.
Qed.

(** The rows a run writes, if it writes any. *)
Lemma run_pushData (world : World) (rows : list Row) :
  EvPushData rows ∈ (run world).2 →
  ∃ cfg json,
    normalizeInput (default emptyInput (w_input world)) = Normal cfg
    ∧ rows = dedupeRows (extractRows (cfg_keywords cfg) (cfg_city cfg) (elementsOf json)).
Proof.
  rewrite run_spec. cbn [snd]. unfold runTrace.
  destruct (normalizeInput _) as [cfg|e] eqn:En.
  - cbn zeta. intros [Hin|Hin]%elem_of_app.
    + pose proof (attemptEvents_no_push
        (overpassQL 6 (buildRegex (cfg_keywords cfg)) (cfg_bbox cfg))
        (attemptsFrom world (overpassQL 6 (buildRegex (cfg_keywords cfg)) (cfg_bbox cfg))
           0 schedule)) as Hno.
      rewrite Forall_forall in Hno. apply Hno in Hin. discriminate Hin.
    + destruct (resultOf _) as [json|e].
      * apply elem_of_cons in Hin as [[= ->]|Hin]; [by exists cfg, json|].
        apply elem_of_cons in Hin as [[=]|Hin]. by apply elem_of_nil in Hin.
      * unfold errorEvents in Hin.
        apply elem_of_cons in Hin as [[=]|Hin].
        apply elem_of_cons in Hin as [[=]|Hin]. by apply elem_of_nil in Hin.
  - unfold errorEvents. intros Hin.
    apply elem_of_cons in Hin as [[=]|Hin].
    apply elem_of_cons in Hin as [[=]|Hin]. by apply elem_of_nil in Hin.
Qed.

(** X18.  A dataset written by a run holds no two rows with the same
    deduplication key, so no two rows with the same non-empty domain; every
    row has a name that is not empty and carries no surrounding white space,
    a city that is not empty, and a domain in lower case. *)
Theorem run_dataset (world : World) (rows : list Row) :
  EvPushData rows ∈ (run world).2 →
  NoDup (dedupKey <$> rows)
  ∧ (∀ i j r1 r2, rows !! i = Some r1 → rows !! j = Some r2 →
       domain r1 ≠ EmptyString → domain r1 = domain r2 → i = j)
  ∧ Forall (fun r =>
              name r ≠ EmptyString
              ∧ Js.trim (name r) = name r
              ∧ city r ≠ EmptyString
              ∧ Js.toLowerCase (domain r) = domain r) rows.
Proof.
  intros (cfg & json & Hcfg & ->)%run_pushData.
  pose proof (dedupeRows_keys_NoDup
    (extractRows (cfg_keywords cfg) (cfg_city cfg) (elementsOf json))) as Hnd.
  split_and!.
  - exact Hnd.
  - intros i j r1 r2 Hi Hj Hne Heq.
    eapply NoDup_lookup; [exact Hnd | |].
    + rewrite list_lookup_fmap, Hi. reflexivity.
    + rewrite list_lookup_fmap, Hj. cbn [fmap option_fmap option_map].
      f_equal. unfold dedupKey. rewrite <- Heq.
      apply truthy_true in Hne. unfold Js.or. by rewrite Hne.
  - apply Forall_forall. intros r Hr.
    eapply elem_of_sublist in Hr; [|apply dedupeRows_sublist].
    apply elem_of_extractRows in Hr as (el & _ & Hrow).
    pose proof (extractRow_city _ _ _ _ Hrow) as Hcity.
    apply extractRow_Some in Hrow as (Hname & Hne & Hdom & _).
    split_and!.
    + exact Hne.
    + rewrite Hname. apply trim_idem.
    + rewrite Hcity. apply cityFromTags_nonempty.
      rewrite normalizeInput_spec in Hcfg.
      destruct (bboxOk _); [|discriminate]. injection Hcfg as <-.
      apply resolveCity_nonempty.
    + rewrite Hdom. apply rootDomain_lower.
Qed.

(** X19.  A run writes to the store either the error record alone, or the
    dataset followed by the summary, and nothing else.  The summary counts
    the rows of the dataset, never more than were found, and records a box
    that passed the range check and a city that is not empty.  A run makes
    at most nine requests and pauses for at most 12.6 seconds in all. *)
Theorem run_footprint (world : World) :
  ((∃ msg stk,
      List.filter isStore (run world).2 = [EvSetValue "ERROR" (ErrorValue msg stk)])
   ∨ (∃ rows sm,
        List.filter isStore (run world).2
        = [EvPushData rows; EvSetValue "RUN-SUMMARY" (SummaryValue sm)]
        ∧ deduped sm = length rows
        ∧ (deduped sm ≤ found sm)%nat
        ∧ bboxOk (sum_bbox sm) = true
        ∧ sum_city sm ≠ EmptyString))
  ∧ (length (List.filter isFetch (run world).2) ≤ 9)%nat
  ∧ (sleepTotal (run world).2 ≤ 700 * 18)%nat.
Proof.
  rewrite run_spec. cbn [snd]. unfold runTrace.
  rewrite normalizeInput_spec.
  destruct (bboxOk (resolveBBox _)) eqn:Hok.
  2: { split_and!; [left; by eexists _, _ | cbn; lia | cbn; lia]. }
  cbn zeta. cbn [cfg_keywords cfg_bbox cfg_city].
  set (input := default emptyInput (w_input world)) in *.
  set (ql := overpassQL 6 (buildRegex (resolveKeywords input)) (resolveBBox input)).
  destruct (made_bounds world ql 0) as (Hlen & Hsum & _).
  pose proof (attemptEvents_sleep ql (attemptsFrom world ql 0 schedule)) as Hsleep.
  rewrite !List.filter_app, !length_app, sleepTotal_app, attemptEvents_fetches.
  rewrite (filter_none isStore _ (attemptEvents_no_store ql _)). cbn [app].
  destruct (resultOf _) as [json|e].
  - split_and!.
    + right. eexists _, _. split; [reflexivity|]. cbn [deduped found sum_bbox sum_city].
      split_and!; [reflexivity | | exact Hok | apply resolveCity_nonempty].
      apply sublist_length, dedupeRows_sublist.
    + cbn [List.filter isFetch length]. lia.
    + change (sleepTotal [_; _]) with 0%nat. lia.
  - split_and!.
    + left. by eexists _, _.
    + cbn [errorEvents List.filter isFetch length]. lia.
    + change (sleepTotal (errorEvents e)) with 0%nat. lia.
Qed.

(** X20.  An answer without an [elements] array, with an empty one, or with
    elements that all lack a name is not an error: the run writes an empty
    dataset and a summary that counts nothing found and nothing kept. *)
Theorem run_nothing_named (world : World) (cfg : Config) (json : Json) :
  normalizeInput (default emptyInput (w_input world)) = Normal cfg →
  resultOf (attemptsFrom world
              (overpassQL 6 (buildRegex (cfg_keywords cfg)) (cfg_bbox cfg)) 0 schedule)
  = Normal json →
  Forall (fun el => unnamed el = true) (elementsOf json) →
  List.filter isStore (run world).2
  = [EvPushData [];
     EvSetValue "RUN-SUMMARY" (SummaryValue
       {| found := 0; deduped := 0; sum_bbox := cfg_bbox cfg;
          sum_keywords := cfg_keywords cfg; sum_city := cfg_city cfg;
          hint := hintText |})].
Proof.
  intros Hcfg Hres Hall. rewrite run_spec. cbn [snd]. unfold runTrace.
  rewrite Hcfg. cbn zeta. rewrite Hres.
  rewrite List.filter_app, (filter_none isStore _ (attemptEvents_no_store _ _)).
  assert (Hrows : extractRows (cfg_keywords cfg) (cfg_city cfg) (elementsOf json) = []).
  { induction Hall as [|el els Hel _ IH]; [reflexivity|].
    rewrite extractRows_cons.
    by rewrite (proj2 (extractRow_None (cfg_keywords cfg) (cfg_city cfg) el) Hel). }
  rewrite Hrows. reflexivity.
Qed.

End RunFacts.

(** The run on the platform that answers the fifth request with two
    elements of one domain. *)
Lemma run_dataset_witness :
  EvPushData [alphaRow] ∈ (run demoWorld).2
  ∧ NoDup (dedupKey <$> [alphaRow])
  ∧ Forall (fun r => name r ≠ EmptyString ∧ Js.toLowerCase (domain r) = domain r) [alphaRow].
Proof.
  assert (Hin : EvPushData [alphaRow] ∈ (run demoWorld).2).
  { apply list_elem_of_In. vm_compute.
    repeat first [left; reflexivity | right]. }
  destruct (run_dataset demoWorld [alphaRow] Hin) as (Hnd & _ & Hall).
  split_and!; [exact Hin | exact Hnd |].
  eapply Forall_impl; [exact Hall|]. intros r (? & _ & _ & ?). by split.
Defined.

(** An answer that is json but has no [elements]. *)
Lemma run_nothing_named_witness :
  List.filter isStore (run shapelessWorld).2
  = [EvPushData [];
     EvSetValue "RUN-SUMMARY" (SummaryValue
       {| found := 0; deduped := 0; sum_bbox := defaultBBox;
          sum_keywords := defaultKws; sum_city := "San Antonio";
          hint := hintText |})].
Proof.
  apply (run_nothing_named shapelessWorld defaultConfig JsonOther).
  - vm_compute. reflexivity.
  - vm_compute. reflexivity.
  - constructor.
Defined.

(** ** Reading a flat field, in the two versions *)

Section FlatField.
Context {engine : Engine}.

(** X21.  The two versions read a flat coordinate alike, except on three
    kinds of value.  A value that is not null and that the first version
    reads as a finite number is read as the same number by the resilient
    one.  Where the first version would put NaN or an infinity into the
    query, the resilient one falls back to the default.  A null is the
    default in the first version and the number 0 in the resilient one. *)
Theorem flat_field_versions (v : JsVal) (def : JsNumber) :
  v ≠ VNull →
  (isFinite (Legacy.numberOr v def) = true → toNum v def = Legacy.numberOr v def)
  ∧ (isFinite (Legacy.numberOr v def) = false → toNum v def = def)
  ∧ Legacy.numberOr VNull def = def
  ∧ toNum VNull def = Fin 0.
Proof.
  intros Hv. unfold toNum, Legacy.numberOr.
  destruct v as [| |b|n|s]; [| contradiction | | |]; cbn [ToNumber isFinite].
  - split_and!; reflexivity.
  - split_and!; try reflexivity; by destruct b.
  - split_and!; try reflexivity; by intros ->.
  - split_and!; try reflexivity; by intros ->.
Qed.

End FlatField.

(** A number in a flat field. *)
Lemma flat_field_versions_witness :
  toNum (engine := refEngine) (VNum (Fin 12)) num_29_10 = Fin 12.
Proof.
  apply (flat_field_versions (engine := refEngine) (VNum (Fin 12)) num_29_10);
    [discriminate | reflexivity].
Defined.
